(** * gitmirror: the repository-sync engine of cmd/gitmirror/main.go

    A shallow embedding of the Go program.  Go strings are byte strings and
    are modelled by [string]; the Go [error] interface is modelled by
    [option error] with [None] for [nil]; everything the program does to the
    outside world (file system, child processes, logging, contexts) is an
    [Event], answered by an oracle of the environment.

    The functions of the Go library the program calls on strings and paths
    ([strings.Split], [filepath.Join]) are modelled from their documentation,
    for a system whose path separator is the slash, and checked on the
    examples of that documentation.  The goroutines of [initRepos] and the
    unbuffered channel between them are modelled by a transition system whose
    turns a schedule chooses; there the loop body of a worker is one turn,
    which runs the body to its end: its return brings the worker back for the
    next descriptor, its panic ends the process, and so does the return of
    [main], which follows the return of [initRepos]. *)

From Stdlib Require Import String Ascii List Bool Arith ZArith Lia Permutation.
Import ListNotations.

Open Scope list_scope.
Open Scope string_scope.

(** ** The Go library functions the program calls on strings and paths *)

Module GoStrings.

(** The pieces of [s] between the occurrences of the byte [sep], as a first
    piece and the pieces after it: the result of [strings.Split] is never
    empty when the separator is not. *)
Fixpoint pieces (s : string) (sep : ascii) : string * list string :=
  match s with
  | EmptyString => (EmptyString, [])
  | String c s' =>
      let (w, ws) := pieces s' sep in
      if Ascii.eqb c sep then (EmptyString, w :: ws) else (String c w, ws)
  end.

(** [strings.Split(s, sep)] for a separator of one byte, which is what both
    call sites of the program pass ("@" and ":"). *)
Definition Split (s : string) (sep : ascii) : list string :=
  let (w, ws) := pieces s sep in w :: ws.

(** [strings.Join(elems, sep)]. *)
Fixpoint Join (elems : list string) (sep : string) : string :=
  match elems with
  | [] => ""
  | [e] => e
  | e :: rest => e ++ sep ++ Join rest sep
  end.

(** [strings.Contains(s, string(c))]. *)
Fixpoint ContainsByte (s : string) (c : ascii) : bool :=
  match s with
  | EmptyString => false
  | String d s' => Ascii.eqb d c || ContainsByte s' c
  end.

End GoStrings.

Module filepath.
Import GoStrings.

Definition Separator : ascii := "/"%char.

Definition rooted (path : string) : bool :=
  match path with
  | String c _ => Ascii.eqb c Separator
  | EmptyString => false
  end.

(** One path element met by [Clean], on the elements kept so far (the last
    one first): empty elements and "." are dropped, ".." removes the element
    before it, is dropped at the root, and is kept at the start of a
    relative path. *)
Definition cleanStep (isRooted : bool) (kept : list string) (elem : string)
  : list string :=
  if (elem =? "")%string || (elem =? ".")%string then kept
  else if (elem =? "..")%string then
    match kept with
    | top :: below =>
        if (top =? "..")%string then elem :: kept else below
    | [] => if isRooted then [] else [elem]
    end
  else elem :: kept.

Definition cleanElems (isRooted : bool) (elems : list string) : list string :=
  fold_left (cleanStep isRooted) elems [].

(** [filepath.Clean] on a system whose separator is the slash. *)
Definition Clean (path : string) : string :=
  if (path =? "")%string then "."
  else
    let kept := rev (cleanElems (rooted path) (Split path Separator)) in
    if rooted path then "/" ++ Join kept "/"
    else match kept with
         | [] => "."
         | _ => Join kept "/"
         end.

Fixpoint dropEmpty (elem : list string) : list string :=
  match elem with
  | [] => []
  | e :: rest => if (e =? "")%string then dropEmpty rest else elem
  end.

(** [filepath.Join]: the elements from the first one that is not empty,
    joined by the separator and cleaned; the empty string when there is
    none. *)
Definition Join (elem : list string) : string :=
  match dropEmpty elem with
  | [] => ""
  | rest => Clean (GoStrings.Join rest "/")
  end.

End filepath.

(** ** Data model *)

(** [type repo struct]. *)
Record repo := {
  root : string;        (* root on disk cachedir+name *)
  name : string;        (* name of repo from yaml file *)
  source : string;      (* source url from yaml file *)
  destination : string  (* destination url from yaml file *)
}.

(** [type RepoMap struct], one record of the mappings file. *)
Record RepoMap := {
  Name : string;
  ADO : string;
  BitBucket : string
}.

(** The descriptor [main] builds for one record of the mappings file. *)
Definition newRepo (cacheDir : string) (r : RepoMap) : repo :=
  {| root := filepath.Join [cacheDir; Name r];
     name := Name r;
     source := ADO r;
     destination := BitBucket r |}.

(** The loop of [main] over [repos.Repos], appending to [re]. *)
Definition buildRepos (cacheDir : string) (mappings : list RepoMap) : list repo :=
  fold_left (fun re r => (re ++ [newRepo cacheDir r])%list) mappings [].

(** ** Effects *)

(** A Go error value, by its message. *)
Definition error := string.

(** [time.Duration]: a count of nanoseconds. *)
Definition Duration := Z.
Definition time_Second : Duration := 1000000000%Z.

(** A context made by [context.WithTimeout]: [ctxSerial] tells contexts of one
    run apart, [ctxTimeout] is the duration it was made with. *)
Record Context := {
  ctxSerial : nat;
  ctxTimeout : Duration
}.

(** [exec.Cmd]: the context that bounds the child, the program, its
    arguments, the working directory (empty: the caller's) and whether a
    process was started for it. *)
Record Cmd := {
  cmdCtx : Context;
  cmdPath : string;
  cmdArgs : list string;
  cmdDir : string;
  cmdProcess : bool
}.

(** What the program does to the world, in the order it does it. *)
Inductive Event :=
| EvStat (path : string)
| EvRemoveAll (path : string)
| EvMkdirAll (path : string) (perm : N)
| EvWriteFile (path data : string) (perm : N)
| EvWithTimeout (ctx : Context)
| EvCancel (ctx : Context)
| EvStart (c : Cmd)
| EvWait (c : Cmd)
| EvPrintf (line : string).

(** The environment: for a fallible call and the events before it, the error
    the call returns ([None] is Go's [nil]). *)
Definition Env := list Event -> Event -> option error.

Inductive Panic :=
| IndexOutOfRange (index len : nat).

Inductive Outcome (A : Type) :=
| Returned (a : A)
| Panicked (p : Panic).
Arguments Returned {A} a.
Arguments Panicked {A} p.

(** A computation reads the environment and the events so far, and gives the
    events it adds and how it ended. *)
Definition M (A : Type) := Env -> list Event -> list Event * Outcome A.

Definition ret {A} (a : A) : M A := fun _ _ => ([], Returned a).

Definition bind {A B} (m : M A) (k : A -> M B) : M B :=
  fun env h =>
    match m env h with
    | (es, Returned a) =>
        let (es', o) := k a env (h ++ es)%list in ((es ++ es')%list, o)
    | (es, Panicked p) => (es, Panicked p)
    end.

Notation "x <- m ;; k" := (bind m (fun x => k))
  (at level 61, m at next level, right associativity).
Notation "m ;; k" := (bind m (fun _ => k))
  (at level 61, right associativity).

Definition panic {A} (p : Panic) : M A := fun _ _ => ([], Panicked p).

(** A call the environment answers. *)
Definition call (e : Event) : M (option error) :=
  fun env h => ([e], Returned (env h e)).

(** An effect that cannot fail. *)
Definition emit (e : Event) : M unit := fun _ _ => ([e], Returned tt).

(** [defer cleanup()] followed by [body]: the deferred call runs when the
    function is left, by return or by panic, and does not change how it is
    left. *)
Definition defer {A} (cleanup : M unit) (body : M A) : M A :=
  fun env h =>
    let (es, o) := body env h in
    let (es', _) := cleanup env (h ++ es)%list in
    ((es ++ es')%list, o).

Definition events {A} (m : M A) (env : Env) (h : list Event) : list Event :=
  fst (m env h).

Definition outcome {A} (m : M A) (env : Env) (h : list Event) : Outcome A :=
  snd (m env h).

(** Indexing a slice: [xs[i]]. *)
Definition index (xs : list string) (i : nat) : M string :=
  match nth_error xs i with
  | Some x => ret x
  | None => panic (IndexOutOfRange i (List.length xs))
  end.

Definition os_Stat (path : string) : M (option error) := call (EvStat path).
Definition os_RemoveAll (path : string) : M (option error) := call (EvRemoveAll path).
Definition os_MkdirAll (path : string) (perm : N) : M (option error) :=
  call (EvMkdirAll path perm).
Definition ioutil_WriteFile (path data : string) (perm : N) : M (option error) :=
  call (EvWriteFile path data perm).
Definition log_Printf (line : string) : M unit := emit (EvPrintf line).

(** [context.WithTimeout(context.Background(), d)]: the context, whose cancel
    function is [cancel]. *)
Definition context_WithTimeout (d : Duration) : M Context :=
  fun _ h =>
    let ctx := {| ctxSerial := List.length h; ctxTimeout := d |} in
    ([EvWithTimeout ctx], Returned ctx).

Definition cancel (ctx : Context) : M unit := emit (EvCancel ctx).

(** [exec.CommandContext(ctx, name, arg...)]. *)
Definition exec_CommandContext (ctx : Context) (path : string) (args : list string) : Cmd :=
  {| cmdCtx := ctx; cmdPath := path; cmdArgs := args; cmdDir := ""; cmdProcess := false |}.

Definition setDir (c : Cmd) (dir : string) : Cmd :=
  {| cmdCtx := cmdCtx c; cmdPath := cmdPath c; cmdArgs := cmdArgs c;
     cmdDir := dir; cmdProcess := cmdProcess c |}.

Definition setProcess (c : Cmd) (started : bool) : Cmd :=
  {| cmdCtx := cmdCtx c; cmdPath := cmdPath c; cmdArgs := cmdArgs c;
     cmdDir := cmdDir c; cmdProcess := started |}.

(** [cmd.Start()]: the command afterwards and the error. *)
Definition cmd_Start (c : Cmd) : M (Cmd * option error) :=
  err <- call (EvStart c) ;;
  match err with
  | None => ret (setProcess c true, None)
  | Some e => ret (c, Some e)
  end.

(** [cmd.Wait()]: an error of its own when no process was started, else what
    the environment says of the child (its exit status, or that it was killed
    when the context's deadline passed). *)
Definition cmd_Wait (c : Cmd) : M (option error) :=
  if cmdProcess c then call (EvWait c) else ret (Some "exec: not started").

(** The line feed of the Go string literals. *)
Definition LF : string := String "010"%char "".

(** ** The program *)

Import GoStrings.

(** [func clone(r repo)]. *)
Definition clone (r : repo) : M unit :=
  ctx <- context_WithTimeout (30 * time_Second)%Z ;;
  defer (cancel ctx)
    (log_Printf ("cloning repo: " ++ name r ++ ", root: " ++ root r) ;;
     let cmd := exec_CommandContext ctx "git" ["clone"; "--mirror"; source r; root r] in
     started <- cmd_Start cmd ;;
     let (cmd, err) := started in
     match err with
     | Some e => log_Printf ("error starting git clone on repo: " ++ name r ++ ", err: " ++ e)
     | None => ret tt
     end ;;
     err <- cmd_Wait cmd ;;
     match err with
     | Some e => log_Printf ("error waiting git clone on repo: " ++ name r ++ ", err: " ++ e)
     | None => ret tt
     end).

(** The remote name both [addRemote] and [push] compute from the
    destination: [strings.Split(strings.Split(d, "@")[1], ":")[0]]. *)
Definition remoteName (d : string) : M string :=
  let nameAt := Split d "@" in
  at1 <- index nameAt 1 ;;
  index (Split at1 ":") 0.

(** [func addRemote(r repo)].  The permission [511] is the [0777] of the
    source. *)
Definition addRemote (r : repo) : M unit :=
  err <- os_MkdirAll (filepath.Join [root r; "remotes"]) 511%N ;;
  match err with
  | Some _ => ret tt
  | None =>
      let remote := "URL: " ++ destination r ++ LF ++
                    "Push: +refs/heads/*:refs/heads/*" ++ LF ++
                    "Push: +refs/tags/*:refs/tags/*" ++ LF in
      name <- remoteName (destination r) ;;
      ioutil_WriteFile (filepath.Join [root r; "remotes"; name]) remote 511%N ;;
      ret tt
  end.

(** [func fetch(r repo) error]. *)
Definition fetch (r : repo) : M (option error) :=
  ctx <- context_WithTimeout (30 * time_Second)%Z ;;
  defer (cancel ctx)
    (log_Printf ("fetching repo: " ++ name r ++ ", root: " ++ root r) ;;
     let cmd := exec_CommandContext ctx "git" ["fetch"; "--prune"; "origin"] in
     let cmd := setDir cmd (root r) in
     started <- cmd_Start cmd ;;
     let (cmd, err) := started in
     match err with
     | Some e =>
         log_Printf ("error starting git fetch on repo: " ++ name r ++ ", err: " ++ e) ;;
         ret (Some e)
     | None =>
         err <- cmd_Wait cmd ;;
         match err with
         | Some e =>
             log_Printf ("error waiting git fetch on repo: " ++ name r ++ ", err: " ++ e) ;;
             ret (Some e)
         | None => ret None
         end
     end).

(** [func push(r repo)]. *)
Definition push (r : repo) : M unit :=
  ctx <- context_WithTimeout (30 * time_Second)%Z ;;
  defer (cancel ctx)
    (name0 <- remoteName (destination r) ;;
     log_Printf ("pushing repo: " ++ name r ++ ", root: " ++ root r) ;;
     let cmd := exec_CommandContext ctx "git" ["push"; "--mirror"; "--force"; name0] in
     let cmd := setDir cmd (root r) in
     started <- cmd_Start cmd ;;
     let (cmd, err) := started in
     match err with
     | Some e => log_Printf ("error starting git push on repo: " ++ name r ++ ", err: " ++ e)
     | None => ret tt
     end ;;
     err <- cmd_Wait cmd ;;
     match err with
     | Some e => log_Printf ("error waiting git push on repo: " ++ name r ++ ", err: " ++ e)
     | None => ret tt
     end).

Definition isErr (err : option error) : bool :=
  match err with Some _ => true | None => false end.

(** The first half of the body of the worker's loop: the variable
    [canReuse] after the marker-file test and the fetch that tries the
    existing mirror.  The [err] tested after that fetch is the one
    [os.Stat] returned: the result of [fetch(r)] is not assigned. *)
Definition reuseCheck (r : repo) : M bool :=
  err <- os_Stat (filepath.Join [root r; "FETCH_HEAD"]) ;;
  canReuse <- (if isErr err
               then log_Printf ("can't resuse repo: " ++ root r) ;; ret false
               else ret true) ;;
  if canReuse : bool then
    log_Printf ("trying to resuse repo: " ++ root r) ;;
    _ <- fetch r ;;
    if isErr err
    then log_Printf ("failed to resuse repo: " ++ root r) ;; ret false
    else ret canReuse
  else ret canReuse.

(** [if !canReuse { os.RemoveAll(r.root); clone(r) }]. *)
Definition cloneUnless (canReuse : bool) (r : repo) : M unit :=
  if negb canReuse then os_RemoveAll (root r) ;; clone r else ret tt.

(** [if *flagMirror { addRemote(r); push(r) }]. *)
Definition mirrorStage (flagMirror : bool) (r : repo) : M unit :=
  if flagMirror then addRemote r ;; push r else ret tt.

(** The body of [for r := range rc] in the goroutine of [initRepos]. *)
Definition syncRepo (flagMirror : bool) (r : repo) : M unit :=
  canReuse <- reuseCheck r ;;
  cloneUnless canReuse r ;;
  (* we want to be able to reuse even if we don't mirror *)
  _ <- fetch r ;;
  mirrorStage flagMirror r.

(** One worker goroutine on the descriptors it receives, in order. *)
Fixpoint worker (flagMirror : bool) (received : list repo) : M unit :=
  match received with
  | [] => ret tt
  | r :: rest => syncRepo flagMirror r ;; worker flagMirror rest
  end.

(** ** Running example: the scenario of the specification *)

Definition repoA : repo :=
  newRepo "/cache" {| Name := "a"; ADO := "ssh://src/a"; BitBucket := "git@bb:org/a" |}.

(** An empty cache: no marker file; every other call succeeds. *)
Definition envEmptyCache : Env :=
  fun _ e => match e with EvStat _ => Some "no such file or directory" | _ => None end.

(** A cache with the marker file in which every child process exits with an
    error. *)
Definition envFetchFails : Env :=
  fun _ e => match e with EvWait _ => Some "exit status 128" | _ => None end.

(** An empty cache on a file system that refuses deletions and writes. *)
Definition envReadOnly : Env :=
  fun _ e =>
    match e with
    | EvStat _ => Some "no such file or directory"
    | EvRemoveAll _ => Some "permission denied"
    | EvWriteFile _ _ _ => Some "permission denied"
    | _ => None
    end.

(** [m] adds only events that satisfy [P], in every environment. *)
Definition emits {A} (P : Event -> Prop) (m : M A) : Prop :=
  forall env h, Forall P (events m env h).

(** [m] returns in every environment: it never panics. *)
Definition returns {A} (m : M A) : Prop :=
  forall env h, exists a, outcome m env h = Returned a.

(** ** Reading a trace *)

(** The verb of a git child process: the first argument of its command. *)
Definition gitVerb (c : Cmd) : string :=
  match cmdArgs c with
  | verb :: _ => verb
  | [] => ""
  end.

(** The event starts the child process [git <verb> ...]. *)
Definition startsGit (verb : string) (ev : Event) : bool :=
  match ev with
  | EvStart c => (cmdPath c =? "git")%string && (gitVerb c =? verb)%string
  | _ => false
  end.

(** The event deletes a directory tree or starts a clone. *)
Definition deletesOrClones (ev : Event) : bool :=
  match ev with
  | EvRemoveAll _ => true
  | _ => startsGit "clone" ev
  end.

(** The event belongs to the mirroring stages: creating the remotes
    directory, writing a remote-registration file, or a push. *)
Definition mirrors (ev : Event) : bool :=
  match ev with
  | EvMkdirAll _ _ => true
  | EvWriteFile _ _ _ => true
  | EvStart c | EvWait c => (gitVerb c =? "push")%string
  | _ => false
  end.

(** The lines the program logged. *)
Definition logLines (evs : list Event) : list string :=
  flat_map (fun ev => match ev with EvPrintf line => [line] | _ => [] end) evs.

(** The marker file of a repository. *)
Definition markerFile (r : repo) : string := filepath.Join [root r; "FETCH_HEAD"].

(** What running [git args...] in [dir] under a 30-second context may add
    to the trace: the context and its cancellation, the start and the wait
    of that command, and log lines. *)
Definition runsGit (args : list string) (dir : string) (ev : Event) : Prop :=
  match ev with
  | EvWithTimeout ctx | EvCancel ctx => ctxTimeout ctx = (30 * time_Second)%Z
  | EvStart c | EvWait c =>
      cmdPath c = "git" /\ cmdArgs c = args /\ cmdDir c = dir /\
      ctxTimeout (cmdCtx c) = (30 * time_Second)%Z
  | EvPrintf _ => True
  | _ => False
  end.

Definition cloneArgs (r : repo) : list string := ["clone"; "--mirror"; source r; root r].
Definition fetchArgs : list string := ["fetch"; "--prune"; "origin"].
Definition pushArgs (remote : string) : list string := ["push"; "--mirror"; "--force"; remote].

(** The event touches nothing but the local mirror of [r]: its marker file,
    its directory tree, a clone into it or a fetch inside it. *)
Definition touchesOnlyMirror (r : repo) (ev : Event) : Prop :=
  ev = EvStat (markerFile r) \/ ev = EvRemoveAll (root r) \/
  runsGit (cloneArgs r) "" ev \/ runsGit fetchArgs (root r) ev.

(** The event belongs to the remote registration or the push of [r]. *)
Definition registersOrPushes (r : repo) (ev : Event) : Prop :=
  ev = EvMkdirAll (filepath.Join [root r; "remotes"]) 511 \/
  (exists remote data, ev = EvWriteFile (filepath.Join [root r; "remotes"; remote]) data 511) \/
  (exists remote, runsGit (pushArgs remote) (root r) ev).

(** ** Path elements and clean directories *)

(** [n] is a single path element: not empty, not "." or "..", and without a
    separator. *)
Definition isElem (n : string) : bool :=
  negb (n =? "")%string && negb (n =? ".")%string && negb (n =? "..")%string &&
  negb (GoStrings.ContainsByte n filepath.Separator).

(** [p] is a directory path that [filepath.Clean] leaves as it is, other
    than the root and the current directory. *)
Definition isCleanDir (p : string) : bool :=
  (filepath.Clean p =? p)%string && negb (p =? "/")%string && negb (p =? ".")%string.

(** What [filepath.Join] puts before a last element joined to [p]. *)
Definition joinPrefix (p : string) : string :=
  if (p =? "")%string then ""
  else
    match filepath.cleanElems (filepath.rooted p) (GoStrings.Split p filepath.Separator) with
    | [] => if filepath.rooted p then "/" else ""
    | _ => filepath.Clean p ++ "/"
    end.

(** The steps of the worker's loop before the fetch that always runs: the
    reuse check and the deletion and clone it may call for. *)
Definition branchStage (r : repo) : M unit :=
  canReuse <- reuseCheck r ;; cloneUnless canReuse r.

(** How many events of a trace satisfy [f]. *)
Definition count (f : Event -> bool) (evs : list Event) : nat :=
  List.length (filter f evs).

(** How the computation of the remote name ends for a destination: the text
    between the first '@' and the next ':', or the panic of indexing the
    pieces at 1 when the destination has no '@'. *)
Definition remoteResult (d : string) : Outcome string :=
  match nth_error (GoStrings.Split d "@") 1 with
  | Some at1 => Returned (fst (GoStrings.pieces at1 ":"))
  | None => Panicked (IndexOutOfRange 1 (List.length (GoStrings.Split d "@")))
  end.

(** A repository whose destination has no '@'. *)
Definition repoPlain : repo :=
  newRepo "/cache" {| Name := "a"; ADO := "ssh://src/a"; BitBucket := "https://bb/org/a" |}.

(** An environment in which every call succeeds. *)
Definition envAllGood : Env := fun _ _ => None.

(** Two records of a mappings file whose names differ by a trailing
    separator. *)
Definition mapA : RepoMap :=
  {| Name := "a"; ADO := "ssh://src/a"; BitBucket := "git@bb:org/a" |}.
Definition mapASlash : RepoMap :=
  {| Name := "a/"; ADO := "ssh://src/other"; BitBucket := "git@bb:org/other" |}.

(** The record of the scenario, for any source. *)
Definition mapScenario (src : string) : RepoMap :=
  {| Name := "a"; ADO := src; BitBucket := "git@bb:org/a" |}.

(** ** The dispatcher *)

(** [const max = 5]: the number of worker goroutines of [initRepos]. *)
Definition max : nat := 5.

(** Where a worker goroutine stands: blocked on [for r := range rc], running
    the loop body for a descriptor it received, or past the loop because the
    channel was closed. *)
Inductive Goroutine :=
| Receiving
| Running (r : repo)
| Exited.

(** Where the main goroutine stands: in the first loop of [initRepos] about
    to test [i < max], in its second loop with the descriptors still to send
    on the channel, returned from [initRepos] (it returns right after
    [close(c)]), or returned from [main] as well, which follows the call of
    [initRepos] and ends the process with every goroutine still running. *)
Inductive MainPC :=
| MainSpawning (i : nat)
| MainSending (rest : list repo)
| MainReturned
| MainExited.

(** The state of the process from the call of [initRepos] on: the main
    goroutine, the channel, the goroutines it started, the descriptors whose
    loop body has returned (the latest first), the events of the loop bodies
    that have ended (body after body, in the order they ended), and the panic
    of a loop body, which ends the process. *)
Record Pool := {
  pc : MainPC;
  closed : bool;
  workers : list Goroutine;
  finished : list repo;
  trace : list Event;
  died : option Panic
}.

(** Whose turn the scheduler gives: the main goroutine or the worker of some
    index. *)
Inductive Choice :=
| Main
| Worker (k : nat).

Definition initPool : Pool :=
  {| pc := MainSpawning 0; closed := false; workers := []; finished := [];
     trace := []; died := None |}.

Fixpoint setNth (k : nat) (g : Goroutine) (ws : list Goroutine) : list Goroutine :=
  match ws, k with
  | [], _ => []
  | _ :: ws', O => g :: ws'
  | w :: ws', S k' => w :: setNth k' g ws'
  end.

(** The process is running: no loop body has panicked and [main] has not
    returned. *)
Definition alive (p : Pool) : bool :=
  match died p, pc p with
  | None, MainExited => false
  | None, _ => true
  | Some _, _ => false
  end.

(** A step of the main goroutine: start one more goroutine, go on to the
    sending loop, close the channel and return from [initRepos], or return
    from [main].  A send on the unbuffered channel is not a step of the main
    goroutine alone: it happens when a worker receives. *)
Definition stepMain (repos : list repo) (p : Pool) : option Pool :=
  if alive p then
    match pc p with
    | MainSpawning i =>
        if (i <? max)%nat
        then Some {| pc := MainSpawning (S i); closed := closed p;
                     workers := (workers p ++ [Receiving])%list; finished := finished p;
                     trace := trace p; died := died p |}
        else Some {| pc := MainSending repos; closed := closed p;
                     workers := workers p; finished := finished p;
                     trace := trace p; died := died p |}
    | MainSending [] =>
        Some {| pc := MainReturned; closed := true;
                workers := workers p; finished := finished p;
                trace := trace p; died := died p |}
    | MainSending (_ :: _) => None
    | MainReturned =>
        Some {| pc := MainExited; closed := closed p;
                workers := workers p; finished := finished p;
                trace := trace p; died := died p |}
    | MainExited => None
    end
  else None.

(** A step of worker [k] while the process runs: receive the descriptor the
    main goroutine is sending, leave the loop when the channel is closed, or
    run the loop body it is in to its end.  A body that returns brings the
    worker back to the receive; a body that panics ends the process, with the
    worker still in it. *)
Definition stepWorker (flagMirror : bool) (env : Env) (k : nat) (p : Pool) : option Pool :=
  if alive p then
    match nth_error (workers p) k with
    | Some Receiving =>
        match pc p with
        | MainSending (r :: rest) =>
            Some {| pc := MainSending rest; closed := closed p;
                    workers := setNth k (Running r) (workers p); finished := finished p;
                    trace := trace p; died := died p |}
        | _ =>
            if closed p
            then Some {| pc := pc p; closed := closed p;
                         workers := setNth k Exited (workers p); finished := finished p;
                         trace := trace p; died := died p |}
            else None
        end
    | Some (Running r) =>
        match outcome (syncRepo flagMirror r) env (trace p) with
        | Returned _ =>
            Some {| pc := pc p; closed := closed p;
                    workers := setNth k Receiving (workers p); finished := r :: finished p;
                    trace := (trace p ++ events (syncRepo flagMirror r) env (trace p))%list;
                    died := died p |}
        | Panicked e =>
            Some {| pc := pc p; closed := closed p;
                    workers := workers p; finished := finished p;
                    trace := (trace p ++ events (syncRepo flagMirror r) env (trace p))%list;
                    died := Some e |}
        end
    | Some Exited => None
    | None => None
    end
  else None.

Definition step (flagMirror : bool) (env : Env) (repos : list repo) (c : Choice) (p : Pool)
  : option Pool :=
  match c with
  | Main => stepMain repos p
  | Worker k => stepWorker flagMirror env k p
  end.

(** The state after the turns of a schedule, when each of them can be
    taken. *)
Fixpoint runPool (flagMirror : bool) (env : Env) (repos : list repo)
    (sched : list Choice) (p : Pool) : option Pool :=
  match sched with
  | [] => Some p
  | c :: rest =>
      match step flagMirror env repos c p with
      | Some p' => runPool flagMirror env repos rest p'
      | None => None
      end
  end.

(** The descriptors whose loop body is being executed. *)
Fixpoint running (ws : list Goroutine) : list repo :=
  match ws with
  | [] => []
  | Running r :: ws' => r :: running ws'
  | _ :: ws' => running ws'
  end.

(** The descriptors no worker has received yet. *)
Definition pending (repos : list repo) (p : Pool) : list repo :=
  match pc p with
  | MainSpawning _ => repos
  | MainSending rest => rest
  | MainReturned => []
  | MainExited => []
  end.

(** A schedule for one descriptor: the main goroutine starts its five
    goroutines and enters the sending loop, worker 0 receives the descriptor,
    and the main goroutine closes the channel and returns from [initRepos]. *)
Definition schedReturnEarly : list Choice :=
  [Main; Main; Main; Main; Main; Main; Worker 0; Main].

(** What holds of every state of the dispatcher: the goroutines started so
    far (all [max] of them once the first loop is over), the channel closed
    exactly when [initRepos] has returned, and every descriptor already
    received either being executed by a worker or finished. *)
Definition poolInv (repos : list repo) (p : Pool) : Prop :=
  match pc p with
  | MainSpawning i => List.length (workers p) = i /\ i <= max /\ closed p = false
  | MainSending _ => List.length (workers p) = max /\ closed p = false
  | MainReturned => List.length (workers p) = max /\ closed p = true
  | MainExited => List.length (workers p) = max /\ closed p = true
  end /\
  exists sent,
    repos = (sent ++ pending repos p)%list /\
    Permutation sent (running (workers p) ++ finished p).

(** ** Contexts and the child processes they bound *)

(** Inside the scope of [ctx]: child processes are started and waited for
    under [ctx], and no context is made or cancelled. *)
Definition boundBy (ctx : Context) (ev : Event) : Prop :=
  match ev with
  | EvStart c | EvWait c => cmdCtx c = ctx
  | EvWithTimeout _ | EvCancel _ => False
  | _ => True
  end.

(** A trace that opens by making a context of 30 seconds, closes by
    cancelling it, and in between stays inside its scope. *)
Definition scoped (evs : list Event) : Prop :=
  exists ctx body,
    evs = (EvWithTimeout ctx :: body ++ [EvCancel ctx])%list /\
    ctxTimeout ctx = (30 * time_Second)%Z /\
    Forall (boundBy ctx) body.

(** An event that involves neither a context nor a child process. *)
Definition plain (ev : Event) : Prop :=
  match ev with
  | EvStart _ | EvWait _ | EvWithTimeout _ | EvCancel _ => False
  | _ => True
  end.

(** A trace made of plain events and scoped blocks: every child process of
    it runs inside the scope of a context of 30 seconds that is cancelled. *)
Inductive wellScoped : list Event -> Prop :=
| ws_nil : wellScoped []
| ws_plain ev evs : plain ev -> wellScoped evs -> wellScoped (ev :: evs)
| ws_block blk evs : scoped blk -> wellScoped evs -> wellScoped (blk ++ evs).

(** ** Errors and the log *)

(** The line the program logs when starting or waiting for the child of
    [ev] returned the error [e] while working on [r]; other calls have no
    such line. *)
Definition errorLine (r : repo) (ev : Event) (e : error) : option string :=
  match ev with
  | EvStart c =>
      Some ("error starting git " ++ gitVerb c ++ " on repo: " ++ name r ++ ", err: " ++ e)
  | EvWait c =>
      Some ("error waiting git " ++ gitVerb c ++ " on repo: " ++ name r ++ ", err: " ++ e)
  | _ => None
  end.

(** Every start or wait of [evs] to which the environment answered an error
    is followed, later in [evs], by its line in the log.  [h] is the trace
    before [evs]. *)
Fixpoint errorsLogged (r : repo) (env : Env) (h evs : list Event) : Prop :=
  match evs with
  | [] => True
  | ev :: rest =>
      (forall e line,
          env h ev = Some e -> errorLine r ev e = Some line -> In (EvPrintf line) rest) /\
      errorsLogged r env (h ++ [ev])%list rest
  end.

(** The mirroring stages of [r] do not panic: mirroring is disabled, or the
    destination has a remote name. *)
Definition canMirror (fm : bool) (r : repo) : Prop :=
  fm = false \/ exists remote, remoteResult (destination r) = Returned remote.





(** The state that schedule ends in: [initRepos] has returned, worker 0 is
    executing the loop body, nothing has finished. *)
Definition poolReturnedEarly : Pool :=
  {| pc := MainReturned; closed := true;
     workers := [Running repoA; Receiving; Receiving; Receiving; Receiving];
     finished := []; trace := []; died := None |}.



(** Seven descriptors, two more than there are workers. *)
Definition repoNamed (n : string) : repo :=
  newRepo "/cache" {| Name := n; ADO := "ssh://src/" ++ n; BitBucket := "git@bb:org/" ++ n |}.

Definition repos7 : list repo :=
  map repoNamed ["a"; "b"; "c"; "d"; "e"; "f"; "g"].




(** ** More readings of a trace *)

Definition isStart (ev : Event) : bool :=
  match ev with EvStart _ => true | _ => false end.

Definition isWait (ev : Event) : bool :=
  match ev with EvWait _ => true | _ => false end.

Definition isStat (ev : Event) : bool :=
  match ev with EvStat _ => true | _ => false end.

Definition isRemoveAll (ev : Event) : bool :=
  match ev with EvRemoveAll _ => true | _ => false end.

(** An environment in which no child process can be started. *)
Definition envNoGit : Env :=
  fun _ e => match e with EvStart _ => Some "executable file not found in $PATH" | _ => None end.

(** A record of the mappings file without a name, as [yaml.Unmarshal] leaves
    it when the key is missing. *)
Definition mapNoName : RepoMap :=
  {| Name := ""; ADO := "ssh://src/a"; BitBucket := "git@bb:org/a" |}.



(** A schedule that lets worker 0 do all the work: the main goroutine starts
    its goroutines and enters the sending loop; for each descriptor worker 0
    receives it and runs its loop body to the end; the main goroutine closes
    the channel and returns from [initRepos]; every worker leaves its loop;
    [main] returns. *)
Definition schedComplete (repos : list repo) : list Choice :=
  (repeat Main 6 ++
   flat_map (fun _ => [Worker 0; Worker 0]) repos ++
   [Main] ++
   map Worker (seq 0 max) ++
   [Main])%list.

(** ** Startup: [createCacheDir] and [main] *)

(** What [os.Stat] answers for the cache directory: an error for which
    [os.IsNotExist] holds, another error, or no error and a file info with its
    [IsDir]. *)
Inductive StatAnswer :=
| StatNotExist (e : error)
| StatFailed (e : error)
| StatInfo (isDir : bool).

(** The answers of the host to the calls of the startup: each is made at
    most once. *)
Record Host := {
  ioutil_TempDir : string + error;          (* ioutil.TempDir("", "gitmirror") *)
  os_StatDir : string -> StatAnswer;        (* os.Stat(path) *)
  os_MkdirAllDir : string -> option error;  (* os.MkdirAll(path, 0755) *)
  os_ReadFile : string -> string + error;   (* os.ReadFile(path) *)
  yaml_Unmarshal : string -> list RepoMap + error
    (* yaml.Unmarshal(bytes, &repos): the field Repos of the result *)
}.

(** The calls of the startup, in order.  [CallFatal] is [log.Fatalf]: the
    line is logged and the process exits with status 1. *)
Inductive Call :=
| CallTempDir
| CallStat (path : string)
| CallMkdirAll (path : string) (perm : N)
| CallReadFile (path : string)
| CallUnmarshal (data : string)
| CallPrint (line : string)
| CallFatal (line : string).

(** [type mirror struct]. *)
Record mirror := {
  repos : list repo;
  cacheDir : string
}.

(** How [main] ends: by [log.Fatalf], or by returning after
    [mirror.initRepos()]. *)
Inductive MainEnd :=
| Exit1
| InitRepos (m : mirror).

Section Startup.

(** [strconv.Quote], which formats the verb [%q]. *)
Variable quote : string -> string.

(** [func createCacheDir() (string, error)], for the value of the flag
    [-cachedir].  The permission [493] is the [0755] of the source. *)
Definition createCacheDir (flagCacheDir : string) (host : Host)
  : list Call * (string * option error) :=
  if (flagCacheDir =? "")%string then
    match ioutil_TempDir host with
    | inr err => ([CallTempDir], ("", Some err))
    | inl dir => ([CallTempDir], (dir, None))
    end
  else
    match os_StatDir host flagCacheDir with
    | StatNotExist _ =>
        match os_MkdirAllDir host flagCacheDir with
        | Some err =>
            ([CallStat flagCacheDir; CallMkdirAll flagCacheDir 493],
             ("", Some ("can't create cachedir: " ++ err)))
        | None =>
            ([CallStat flagCacheDir; CallMkdirAll flagCacheDir 493],
             (flagCacheDir, None))
        end
    | StatFailed err =>
        ([CallStat flagCacheDir], ("", Some ("problem with the -cachedir: " ++ err)))
    | StatInfo isDir =>
        if negb isDir then
          ([CallStat flagCacheDir],
           ("", Some ("problem with the -cachedir" ++ quote flagCacheDir ++
                      ": not a directory")))
        else ([CallStat flagCacheDir], (flagCacheDir, None))
    end.

(** [func main()], for the values of the flags [-cachedir] and
    [-repomappingsfile], up to the call of [mirror.initRepos()]. *)
Definition main (flagCacheDir repoMappingsFile : string) (host : Host)
  : list Call * MainEnd :=
  let start := [CallPrint "starting git mirror"] in
  let (calls, res) := createCacheDir flagCacheDir host in
  match res with
  | (_, Some err) =>
      ((start ++ calls ++ [CallFatal ("error create cache dir: " ++ err)])%list, Exit1)
  | (dir, None) =>
      let made := (start ++ calls ++ [CallPrint ("created cacheDir: " ++ dir)])%list in
      match os_ReadFile host repoMappingsFile with
      | inr err =>
          ((made ++
            [CallReadFile repoMappingsFile;
             CallFatal ("error reading repomappingsfile: " ++ repoMappingsFile ++
                        " :" ++ err)])%list,
           Exit1)
      | inl bytes =>
          let read := (made ++
                       [CallReadFile repoMappingsFile;
                        CallPrint ("read repoMappingsFile: " ++ repoMappingsFile)])%list in
          match yaml_Unmarshal host bytes with
          | inr err =>
              ((read ++
                [CallUnmarshal bytes;
                 CallFatal ("error unmarshaling repomappingsfile: " ++ err)])%list,
               Exit1)
          | inl records =>
              ((read ++
                [CallUnmarshal bytes;
                 CallPrint ("read repoMappingsFile: " ++ repoMappingsFile)])%list,
               InitRepos {| repos := buildRepos dir records; cacheDir := dir |})
          end
      end
  end.

End Startup.

Definition isFatal (c : Call) : bool :=
  match c with CallFatal _ => true | _ => false end.

(** A host on which "/srv/cache" is a regular file. *)
Definition hostFileInTheWay : Host :=
  {| ioutil_TempDir := inl "/tmp/gitmirror1";
     os_StatDir := fun _ => StatInfo false;
     os_MkdirAllDir := fun _ => None;
     os_ReadFile := fun _ => inl "repos: []";
     yaml_Unmarshal := fun _ => inl [] |}.

(** A host on which nothing exists yet and everything can be made, and
    whose mappings file holds the two records [mapA] and [mapASlash]. *)
Definition hostFresh : Host :=
  {| ioutil_TempDir := inl "/tmp/gitmirror1";
     os_StatDir := fun _ => StatNotExist "no such file or directory";
     os_MkdirAllDir := fun _ => None;
     os_ReadFile := fun _ => inl "repos: ...";
     yaml_Unmarshal := fun _ => inl [mapA; mapASlash] |}.

(** An environment in which no directory can be created. *)
Definition envNoMkdir : Env :=
  fun _ e => match e with EvMkdirAll _ _ => Some "permission denied" | _ => None end.

(** [strconv.Quote] on a string of printable ASCII characters other than the
    double quote and the backslash: the string between double quotes. *)
Definition quotePlain (s : string) : string :=
  String (ascii_of_nat 34) (s ++ String (ascii_of_nat 34) "").

Definition isWriteFile (ev : Event) : bool :=
  match ev with EvWriteFile _ _ _ => true | _ => false end.

(** The lines the loop body logs about its own progress. *)
Definition stageLine (r : repo) (line : string) : Prop :=
  line = "can't resuse repo: " ++ root r \/
  line = "trying to resuse repo: " ++ root r \/
  line = "cloning repo: " ++ name r ++ ", root: " ++ root r \/
  line = "fetching repo: " ++ name r ++ ", root: " ++ root r \/
  line = "pushing repo: " ++ name r ++ ", root: " ++ root r.

(** The line is the one logged for an error of starting or waiting for a
    child process. *)
Definition childErrorLine (r : repo) (line : string) : Prop :=
  exists ev e, errorLine r ev e = Some line.

(** Two environments that answer alike, except perhaps to the deletion of a
    directory tree and to the write of a file. *)
Definition sameButDiscarded (env env' : Env) : Prop :=
  forall h ev, isRemoveAll ev = false -> isWriteFile ev = false -> env' h ev = env h ev.

(** An environment in which nothing on the file system can be deleted,
    created or written. *)
Definition envNoWrites : Env :=
  fun _ e =>
    match e with
    | EvStat _ => Some "no such file or directory"
    | EvRemoveAll _ | EvMkdirAll _ _ | EvWriteFile _ _ _ => Some "permission denied"
    | _ => None
    end.

(** * Properties *)

(** ** The library models on the examples of the Go documentation *)

Module LibraryExamples.
Import GoStrings.

Example ex_Split_at : Split "git@bb:org/a" "@" = ["git"; "bb:org/a"].
Proof. reflexivity. Qed.

Example ex_Split_colon : Split "bb:org/a" ":" = ["bb"; "org/a"].
Proof. reflexivity. Qed.

Example ex_Split_absent : Split "https://bb/org/a" "@" = ["https://bb/org/a"].
Proof. reflexivity. Qed.

Example ex_Split_empty : Split "" "@" = [""].
Proof. reflexivity. Qed.

Example ex_Split_edges : Split "@a@@" "@" = [""; "a"; ""; ""].
Proof. reflexivity. Qed.

Example ex_Clean_plain : filepath.Clean "a/c" = "a/c".
Proof. reflexivity. Qed.

Example ex_Clean_double : filepath.Clean "a//c" = "a/c".
Proof. reflexivity. Qed.

Example ex_Clean_dot : filepath.Clean "a/c/." = "a/c".
Proof. reflexivity. Qed.

Example ex_Clean_up : filepath.Clean "a/c/b/.." = "a/c".
Proof. reflexivity. Qed.

Example ex_Clean_root_up : filepath.Clean "/../a/c" = "/a/c".
Proof. reflexivity. Qed.

Example ex_Clean_mixed : filepath.Clean "/../a/b/../././/c" = "/a/c".
Proof. reflexivity. Qed.

Example ex_Clean_empty : filepath.Clean "" = ".".
Proof. reflexivity. Qed.

Example ex_Clean_relative_up : filepath.Clean "a/../../b/../.." = "../..".
Proof. reflexivity. Qed.

Example ex_Clean_root : filepath.Clean "///" = "/".
Proof. reflexivity. Qed.

Example ex_Clean_trailing : filepath.Clean "abc/def/" = "abc/def".
Proof. reflexivity. Qed.

Example ex_Clean_to_dot : filepath.Clean "abc/def/../.." = ".".
Proof. reflexivity. Qed.

Example ex_Clean_above : filepath.Clean "abc/def/../../../ghi/jkl/../../../mno" = "../../mno".
Proof. reflexivity. Qed.

Example ex_Clean_rooted_above : filepath.Clean "/abc/def/../../.." = "/".
Proof. reflexivity. Qed.

Example ex_Join_root : filepath.Join ["/"; "a"; "b"] = "/a/b".
Proof. reflexivity. Qed.

Example ex_Join_trailing : filepath.Join ["a/"; "b"] = "a/b".
Proof. reflexivity. Qed.

Example ex_Join_three : filepath.Join ["/cache/a"; "remotes"; "bb"] = "/cache/a/remotes/bb".
Proof. reflexivity. Qed.

Example ex_Join_skips_empty : filepath.Join [""; "a"; ""; "b"] = "a/b".
Proof. reflexivity. Qed.

Example ex_Join_none : filepath.Join [""; ""] = "".
Proof. reflexivity. Qed.

End LibraryExamples.

(** ** Laws of the computation monad *)

Section MonadLaws.
Context {A B : Type}.

Lemma events_bind (m : M A) (k : A -> M B) env h :
  events (bind m k) env h =
  (events m env h ++
   match outcome m env h with
   | Returned a => events (k a) env (h ++ events m env h)
   | Panicked _ => []
   end)%list.
Proof.
  unfold events, outcome, bind.
  destruct (m env h) as [es [a|p]]; cbn.
  - destruct (k a env (h ++ es)%list); reflexivity.
  - now rewrite app_nil_r.
Qed.

Lemma outcome_bind (m : M A) (k : A -> M B) env h :
  outcome (bind m k) env h =
  match outcome m env h with
  | Returned a => outcome (k a) env (h ++ events m env h)
  | Panicked p => Panicked p
  end.
Proof.
  unfold events, outcome, bind.
  destruct (m env h) as [es [a|p]]; cbn.
  - destruct (k a env (h ++ es)%list); reflexivity.
  - reflexivity.
Qed.

Lemma events_defer (cleanup : M unit) (body : M A) env h :
  events (defer cleanup body) env h =
  (events body env h ++ events cleanup env (h ++ events body env h))%list.
Proof.
  unfold events, defer.
  destruct (body env h) as [es o]; cbn.
  destruct (cleanup env (h ++ es)%list); reflexivity.
Qed.

Lemma outcome_defer (cleanup : M unit) (body : M A) env h :
  outcome (defer cleanup body) env h = outcome body env h.
Proof.
  unfold outcome, defer.
  destruct (body env h) as [es o]; cbn.
  destruct (cleanup env (h ++ es)%list); reflexivity.
Qed.

End MonadLaws.

Section Emits.
Context {A B : Type} (P : Event -> Prop).

Lemma emits_ret (a : A) : emits P (ret a).
Proof. intros env h; constructor. Qed.

Lemma emits_panic (p : Panic) : emits P (@panic A p).
Proof. intros env h; constructor. Qed.

Lemma emits_call e : P e -> emits P (call e).
Proof. intros He env h; repeat constructor; exact He. Qed.

Lemma emits_emit e : P e -> emits P (emit e).
Proof. intros He env h; repeat constructor; exact He. Qed.

Lemma emits_bind (m : M A) (k : A -> M B) :
  emits P m -> (forall a, emits P (k a)) -> emits P (bind m k).
Proof.
  intros Hm Hk env h. rewrite events_bind. apply Forall_app; split.
  - apply Hm.
  - destruct (outcome m env h); [apply Hk | constructor].
Qed.

Lemma emits_defer (cleanup : M unit) (body : M A) :
  emits P cleanup -> emits P body -> emits P (defer cleanup body).
Proof.
  intros Hc Hb env h. rewrite events_defer. apply Forall_app; split.
  - apply Hb.
  - apply Hc.
Qed.

End Emits.

Section Returns.
Context {A B : Type}.

Lemma returns_ret (a : A) : returns (ret a).
Proof. intros env h; now exists a. Qed.

Lemma returns_call e : returns (call e).
Proof. intros env h; now eexists. Qed.

Lemma returns_emit e : returns (emit e).
Proof. intros env h; now exists tt. Qed.

Lemma returns_bind (m : M A) (k : A -> M B) :
  returns m -> (forall a, returns (k a)) -> returns (bind m k).
Proof.
  intros Hm Hk env h. rewrite outcome_bind.
  destruct (Hm env h) as [a ->]. apply Hk.
Qed.

Lemma returns_defer (cleanup : M unit) (body : M A) :
  returns body -> returns (defer cleanup body).
Proof. intros Hb env h. rewrite outcome_defer. apply Hb. Qed.

End Returns.

Lemma returns_context_WithTimeout d : returns (context_WithTimeout d).
Proof. intros env h; now eexists. Qed.

Lemma returns_cmd_Start c : returns (cmd_Start c).
Proof.
  intros env h. unfold cmd_Start, outcome, bind, call; cbn.
  destruct (env h (EvStart c)); cbn; now eexists.
Qed.

Lemma returns_cmd_Wait c : returns (cmd_Wait c).
Proof.
  unfold cmd_Wait. destruct (cmdProcess c); [apply returns_call | apply returns_ret].
Qed.

(** Steps that build a proof of [returns] or [emits] along the program
    text. *)
Ltac step_returns :=
  repeat first
    [ apply returns_bind; [ | intros ? ]
    | apply returns_defer
    | apply returns_ret
    | apply returns_call
    | apply returns_emit
    | apply returns_context_WithTimeout
    | apply returns_cmd_Start
    | apply returns_cmd_Wait
    | match goal with
      | |- returns (let (_, _) := ?x in _) => destruct x
      | |- returns (match ?x with _ => _ end) => destruct x
      end ].

Lemma returns_clone r : returns (clone r).
Proof. unfold clone, log_Printf, cancel. step_returns. Qed.

Lemma returns_fetch r : returns (fetch r).
Proof. unfold fetch, log_Printf, cancel. step_returns. Qed.

Lemma returns_reuseCheck r : returns (reuseCheck r).
Proof.
  unfold reuseCheck, os_Stat, log_Printf.
  apply returns_bind; [apply returns_call | intros err].
  destruct err; cbn [isErr]; step_returns.
Qed.

Lemma returns_cloneUnless c r : returns (cloneUnless c r).
Proof.
  unfold cloneUnless, os_RemoveAll. destruct c; cbn [negb]; step_returns.
Qed.

Lemma returns_syncPrefix r :
  returns (canReuse <- reuseCheck r ;; cloneUnless canReuse r ;; fetch r).
Proof.
  apply returns_bind; [apply returns_reuseCheck | intros c].
  apply returns_bind; [apply returns_cloneUnless | intros _].
  apply returns_fetch.
Qed.

(** ** Facts about [strings.Split] *)

Section SplitFacts.
Variable sep : ascii.

Lemma pieces_absent s : ContainsByte s sep = false -> pieces s sep = (s, []).
Proof.
  induction s as [|c s IH]; cbn; [reflexivity|].
  intros H. apply orb_false_elim in H as [Hc Hs].
  rewrite (IH Hs), Hc. reflexivity.
Qed.

Lemma Split_absent s : ContainsByte s sep = false -> Split s sep = [s].
Proof. intros H. unfold Split. now rewrite pieces_absent. Qed.

Lemma Split_app_sep s t :
  Split (s ++ String sep t) sep = (Split s sep ++ Split t sep)%list.
Proof.
  unfold Split. induction s as [|c s IH]; cbn.
  - rewrite Ascii.eqb_refl. destruct (pieces t sep); reflexivity.
  - destruct (pieces (s ++ String sep t) sep) as [w ws].
    destruct (pieces s sep) as [w1 ws1].
    destruct (pieces t sep) as [w2 ws2].
    cbn in IH. injection IH as -> ->.
    destruct (Ascii.eqb c sep); reflexivity.
Qed.

End SplitFacts.

(** ** The remote name of a destination without '@' *)

Lemma remoteName_without_at d env h :
  ContainsByte d "@" = false ->
  remoteName d env h = ([], Panicked (IndexOutOfRange 1 1)).
Proof.
  intros H. unfold remoteName. rewrite (Split_absent _ _ H). reflexivity.
Qed.

Lemma push_without_at r env h :
  ContainsByte (destination r) "@" = false ->
  push r env h =
  (let ctx := {| ctxSerial := List.length h; ctxTimeout := (30 * time_Second)%Z |} in
   [EvWithTimeout ctx; EvCancel ctx], Panicked (IndexOutOfRange 1 1)).
Proof.
  intros H. unfold push, bind, defer, context_WithTimeout.
  rewrite (remoteName_without_at _ _ _ H). reflexivity.
Qed.

Lemma addRemote_without_at r env h :
  ContainsByte (destination r) "@" = false ->
  addRemote r env h =
  let mk := EvMkdirAll (filepath.Join [root r; "remotes"]) 511 in
  ([mk], match env h mk with
         | Some _ => Returned tt
         | None => Panicked (IndexOutOfRange 1 1)
         end).
Proof.
  intros H. unfold addRemote, bind, os_MkdirAll, call. cbn.
  destruct (env h _); [reflexivity|].
  rewrite (remoteName_without_at _ _ _ H). reflexivity.
Qed.

Lemma mirrorStage_without_at r env h :
  ContainsByte (destination r) "@" = false ->
  outcome (mirrorStage true r) env h = Panicked (IndexOutOfRange 1 1).
Proof.
  intros H. unfold mirrorStage. rewrite outcome_bind.
  unfold outcome at 1, events. rewrite (addRemote_without_at _ _ _ H). cbn.
  destruct (env h _); [|reflexivity].
  unfold outcome. now rewrite (push_without_at _ _ _ H).
Qed.

(** ** Building a proof of [emits] along the program text *)

Lemma emits_bind_WithTimeout {B} P d (k : Context -> M B) :
  (forall ctx, ctxTimeout ctx = d -> P (EvWithTimeout ctx)) ->
  (forall ctx, ctxTimeout ctx = d -> emits P (k ctx)) ->
  emits P (bind (context_WithTimeout d) k).
Proof.
  intros Hc Hk env h. rewrite events_bind. cbn.
  constructor; [now apply Hc | now apply Hk].
Qed.

Lemma run_cmd_Start c env h :
  cmd_Start c env h =
  ([EvStart c],
   Returned match env h (EvStart c) with
            | None => (setProcess c true, None)
            | Some e => (c, Some e)
            end).
Proof.
  unfold cmd_Start, bind, call, ret.
  destruct (env h (EvStart c)); reflexivity.
Qed.

Lemma emits_bind_Start {B} P c (k : Cmd * option error -> M B) :
  P (EvStart c) ->
  (forall e, emits P (k (c, Some e))) ->
  emits P (k (setProcess c true, None)) ->
  emits P (bind (cmd_Start c) k).
Proof.
  intros Hc Hfail Hok env h. rewrite events_bind.
  unfold events at 1, outcome. rewrite run_cmd_Start. cbn.
  constructor; [exact Hc|].
  destruct (env h (EvStart c)) as [e|]; [apply Hfail | apply Hok].
Qed.

Ltac step_emits leaf :=
  repeat first
    [ apply emits_ret
    | apply emits_bind_Start; [ leaf | intros ? | ]
    | apply emits_panic
    | apply emits_call; leaf
    | apply emits_emit; leaf
    | apply emits_bind_WithTimeout; [ intros ? ?; leaf | intros ? ? ]
    | apply emits_defer
    | match goal with
      | |- emits _ (let (_, _) := ?x in _) => destruct x
      | |- emits _ (match ?x with _ => _ end) => destruct x eqn:?
      end
    | apply emits_bind; [ | intros ? ] ].

Lemma emits_weaken {A} (P Q : Event -> Prop) (m : M A) :
  (forall ev, P ev -> Q ev) -> emits P m -> emits Q m.
Proof. intros HPQ Hm env h. eapply Forall_impl; [exact HPQ | apply Hm]. Qed.

Lemma emits_fetch r : emits (runsGit fetchArgs (root r)) (fetch r).
Proof.
  unfold fetch, cmd_Wait, log_Printf, cancel.
  step_emits ltac:(cbn; auto).
Qed.

Lemma emits_clone r : emits (runsGit (cloneArgs r) "") (clone r).
Proof.
  unfold clone, cmd_Wait, log_Printf, cancel.
  step_emits ltac:(cbn; auto).
Qed.

Lemma emits_push r : emits (registersOrPushes r) (push r).
Proof.
  unfold push, remoteName, index, cmd_Wait, log_Printf, cancel.
  apply emits_bind_WithTimeout; [intros ctx Hctx; do 2 right; now exists "" | intros ctx Hctx].
  apply emits_defer; [apply emits_emit; do 2 right; now exists ""|].
  step_emits ltac:(do 2 right;
                   first [ exists ""; exact I
                         | eexists; cbn; repeat split;
                           solve [reflexivity | assumption] ]).
Qed.

Lemma emits_addRemote r : emits (registersOrPushes r) (addRemote r).
Proof.
  unfold addRemote, remoteName, index, os_MkdirAll, ioutil_WriteFile.
  step_emits ltac:(first [left; reflexivity | right; left; eauto]).
Qed.

Lemma emits_mirrorStage fm r : emits (registersOrPushes r) (mirrorStage fm r).
Proof.
  unfold mirrorStage. destruct fm; [|apply emits_ret].
  apply emits_bind; [apply emits_addRemote | intros _; apply emits_push].
Qed.

Ltac touches_leaf :=
  first [ now left
        | right; now left
        | do 2 right; left; cbn; repeat split; solve [reflexivity | assumption]
        | do 3 right; cbn; repeat split; solve [reflexivity | assumption] ].

Lemma emits_reuseCheck r : emits (touchesOnlyMirror r) (reuseCheck r).
Proof.
  unfold reuseCheck, fetch, cmd_Wait, os_Stat, log_Printf, cancel.
  step_emits touches_leaf.
Qed.

Lemma emits_cloneUnless c r : emits (touchesOnlyMirror r) (cloneUnless c r).
Proof.
  unfold cloneUnless, clone, cmd_Wait, os_RemoveAll, log_Printf, cancel.
  step_emits touches_leaf.
Qed.

(** ** Facts about strings and [filepath.Join] *)

Lemma append_assoc (a b c : string) : ((a ++ b) ++ c = a ++ (b ++ c))%string.
Proof. induction a as [|x a IH]; cbn; [reflexivity | now rewrite IH]. Qed.

Lemma append_inv_head (a b c : string) : (a ++ b = a ++ c)%string -> b = c.
Proof.
  induction a as [|x a IH]; cbn; [trivial|].
  intros H. injection H as H. now apply IH.
Qed.

Lemma append_nonempty (a b : string) : a <> "" -> (a ++ b)%string <> "".
Proof. destruct a; cbn; [congruence | discriminate]. Qed.

Lemma Join_snoc xs x n sep :
  GoStrings.Join ((x :: xs) ++ [n]) sep = (GoStrings.Join (x :: xs) sep ++ sep ++ n)%string.
Proof.
  revert x. induction xs as [|y xs IH]; intros x.
  - reflexivity.
  - change (GoStrings.Join ((x :: y :: xs) ++ [n]) sep)
      with (x ++ sep ++ GoStrings.Join ((y :: xs) ++ [n]) sep)%string.
    rewrite IH.
    change (GoStrings.Join (x :: y :: xs) sep)
      with (x ++ sep ++ GoStrings.Join (y :: xs) sep)%string.
    now rewrite !append_assoc.
Qed.

Lemma rooted_append p q : p <> "" -> filepath.rooted (p ++ q) = filepath.rooted p.
Proof. destruct p; [congruence | reflexivity]. Qed.

Section Elements.
Variable n : string.
Hypothesis Hn : isElem n = true.

Lemma isElem_facts :
  (n =? "")%string = false /\ (n =? ".")%string = false /\
  (n =? "..")%string = false /\ ContainsByte n filepath.Separator = false.
Proof.
  unfold isElem in Hn.
  repeat (apply andb_prop in Hn as [Hn ?]).
  repeat split; now apply negb_true_iff.
Qed.

Lemma Split_elem : Split n filepath.Separator = [n].
Proof. apply Split_absent, isElem_facts. Qed.

Lemma cleanStep_elem isRooted kept : filepath.cleanStep isRooted kept n = n :: kept.
Proof.
  destruct isElem_facts as (H0 & H1 & H2 & _).
  unfold filepath.cleanStep. now rewrite H0, H1, H2.
Qed.

Lemma cleanElems_snoc isRooted elems :
  filepath.cleanElems isRooted (elems ++ [n]) = n :: filepath.cleanElems isRooted elems.
Proof.
  unfold filepath.cleanElems. rewrite fold_left_app. cbn. apply cleanStep_elem.
Qed.

Lemma Clean_snoc p :
  p <> "" -> filepath.Clean (p ++ "/" ++ n) = (joinPrefix p ++ n)%string.
Proof.
  intros Hp. unfold filepath.Clean, joinPrefix.
  apply String.eqb_neq in Hp as Hp'. rewrite Hp'.
  assert ((p ++ "/" ++ n =? "")%string = false) as ->
    by now apply String.eqb_neq, append_nonempty.
  rewrite rooted_append by assumption.
  change ("/" ++ n)%string with (String filepath.Separator n).
  rewrite Split_app_sep, Split_elem, cleanElems_snoc. cbn [rev].
  unfold filepath.Clean. rewrite Hp'.
  destruct (filepath.cleanElems (filepath.rooted p) (Split p filepath.Separator))
    as [|k ks] eqn:HK; cbn [rev app].
  - destruct (filepath.rooted p); reflexivity.
  - destruct (rev ks ++ [k])%list as [|x xs] eqn:Hrev.
    + now apply app_eq_nil in Hrev as [_ ?].
    + rewrite Join_snoc.
      destruct (filepath.rooted p); cbn; now rewrite ?append_assoc.
Qed.

Lemma Join_elem p : filepath.Join [p; n] = (joinPrefix p ++ n)%string.
Proof.
  destruct isElem_facts as (H0 & H1 & H2 & H3).
  unfold filepath.Join. cbn [filepath.dropEmpty]. rewrite H0.
  destruct (p =? "")%string eqn:Hp.
  - apply String.eqb_eq in Hp as ->. cbn [GoStrings.Join joinPrefix String.eqb append].
    unfold filepath.Clean. rewrite H0, Split_elem.
    unfold filepath.cleanElems. cbn [fold_left]. rewrite cleanStep_elem. cbn.
    assert (filepath.rooted n = false) as ->; [|reflexivity].
    destruct n as [|c s]; [reflexivity|].
    cbn in H3 |- *. now apply orb_false_elim in H3 as [-> _].
  - apply String.eqb_neq in Hp. cbn [GoStrings.Join].
    now apply Clean_snoc.
Qed.

End Elements.

Section CleanDirs.
Variable p : string.
Hypothesis Hp : isCleanDir p = true.

Lemma isCleanDir_facts :
  filepath.Clean p = p /\ p <> "/" /\ p <> "." /\ p <> "".
Proof.
  unfold isCleanDir in Hp.
  repeat (apply andb_prop in Hp as [Hp ?]).
  apply String.eqb_eq in Hp.
  assert (p <> "/") by now apply String.eqb_neq, negb_true_iff.
  assert (p <> ".") by now apply String.eqb_neq, negb_true_iff.
  repeat split; trivial.
  intros ->. discriminate Hp.
Qed.

Lemma joinPrefix_cleanDir : joinPrefix p = (p ++ "/")%string.
Proof.
  destruct isCleanDir_facts as (Hc & Hroot & Hdot & Hne).
  unfold joinPrefix. apply String.eqb_neq in Hne as ->.
  destruct (filepath.cleanElems (filepath.rooted p) (Split p filepath.Separator))
    as [|k ks] eqn:HK.
  - exfalso. unfold filepath.Clean in Hc. rewrite HK in Hc.
    destruct (p =? "")%string; [now apply Hdot|].
    destruct (filepath.rooted p); cbn in Hc; [now apply Hroot | now apply Hdot].
  - now rewrite Hc.
Qed.

Lemma Join_cleanDir n :
  isElem n = true -> filepath.Join [p; n] = (p ++ "/" ++ n)%string.
Proof.
  intros Hn. rewrite (Join_elem n Hn), joinPrefix_cleanDir. apply append_assoc.
Qed.

Lemma isCleanDir_snoc n :
  isElem n = true -> isCleanDir (p ++ "/" ++ n) = true.
Proof.
  intros Hn. destruct isCleanDir_facts as (Hc & Hroot & Hdot & Hne).
  unfold isCleanDir.
  rewrite (Clean_snoc n Hn p Hne), joinPrefix_cleanDir, append_assoc.
  rewrite String.eqb_refl. cbn [andb].
  destruct p as [|c s]; [congruence|].
  assert (forall x, (String c s ++ "/" ++ n =? String x "")%string = false) as Hlong.
  { intros x. cbn. destruct (Ascii.eqb c x); [|reflexivity]. destruct s; reflexivity. }
  now rewrite !Hlong.
Qed.

End CleanDirs.

Lemma Join_cleanDir3 p a b :
  isCleanDir p = true -> isElem a = true -> isElem b = true ->
  filepath.Join [p; a; b] = (p ++ "/" ++ a ++ "/" ++ b)%string.
Proof.
  intros Hp Ha Hb.
  destruct (isCleanDir_facts p Hp) as (_ & _ & _ & Hne).
  unfold filepath.Join. cbn [filepath.dropEmpty].
  apply String.eqb_neq in Hne as Hne'. rewrite Hne'. cbn [GoStrings.Join].
  replace (p ++ "/" ++ a ++ "/" ++ b)%string with ((p ++ "/" ++ a) ++ "/" ++ b)%string
    by now rewrite !append_assoc.
  rewrite (Clean_snoc b Hb) by now apply append_nonempty.
  rewrite (joinPrefix_cleanDir _ (isCleanDir_snoc p Hp a Ha)).
  now rewrite !append_assoc.
Qed.

(** ** The worker's loop body, stage by stage *)

Lemma count_app f evs1 evs2 : count f (evs1 ++ evs2) = count f evs1 + count f evs2.
Proof. unfold count. now rewrite filter_app, length_app. Qed.

Lemma count_none f evs : Forall (fun ev => f ev = false) evs -> count f evs = 0.
Proof.
  unfold count. induction 1 as [|ev evs Hev _ IH]; cbn; [reflexivity|].
  now rewrite Hev.
Qed.

Lemma outcome_branchStage r env h : outcome (branchStage r) env h = Returned tt.
Proof.
  assert (returns (branchStage r)) as H.
  { apply returns_bind; [apply returns_reuseCheck | intros c; apply returns_cloneUnless]. }
  destruct (H env h) as [[] ->]. reflexivity.
Qed.

Lemma events_syncRepo fm r env h :
  events (syncRepo fm r) env h =
  (events (branchStage r) env h ++
   events (fetch r) env (h ++ events (branchStage r) env h) ++
   events (mirrorStage fm r) env
     (h ++ events (branchStage r) env h ++
      events (fetch r) env (h ++ events (branchStage r) env h)))%list.
Proof.
  unfold syncRepo, branchStage. rewrite !events_bind.
  destruct (returns_reuseCheck r env h) as [c ->].
  rewrite ?events_bind.
  destruct (returns_cloneUnless c r env (h ++ events (reuseCheck r) env h)%list) as [[] ->].
  destruct (returns_fetch r env
              ((h ++ events (reuseCheck r) env h) ++
               events (cloneUnless c r) env (h ++ events (reuseCheck r) env h))%list)
    as [err ->].
  now rewrite <- !app_assoc.
Qed.

Lemma outcome_syncRepo fm r env h :
  outcome (syncRepo fm r) env h =
  outcome (mirrorStage fm r) env
    (h ++ events (branchStage r) env h ++
     events (fetch r) env (h ++ events (branchStage r) env h))%list.
Proof.
  unfold syncRepo, branchStage. rewrite !outcome_bind, !events_bind.
  destruct (returns_reuseCheck r env h) as [c ->].
  rewrite ?outcome_bind.
  destruct (returns_cloneUnless c r env (h ++ events (reuseCheck r) env h)%list) as [[] ->].
  destruct (returns_fetch r env
              ((h ++ events (reuseCheck r) env h) ++
               events (cloneUnless c r) env (h ++ events (reuseCheck r) env h))%list)
    as [err ->].
  now rewrite <- !app_assoc.
Qed.

Lemma run_reuseCheck_absent r env h e :
  env h (EvStat (markerFile r)) = Some e ->
  reuseCheck r env h =
  ([EvStat (markerFile r); EvPrintf ("can't resuse repo: " ++ root r)], Returned false).
Proof.
  intros H. unfold reuseCheck, bind, os_Stat, call. fold (markerFile r).
  rewrite H. reflexivity.
Qed.

Lemma run_reuseCheck_present r env h :
  env h (EvStat (markerFile r)) = None ->
  reuseCheck r env h =
  (EvStat (markerFile r) :: EvPrintf ("trying to resuse repo: " ++ root r) ::
   events (fetch r) env
     (h ++ [EvStat (markerFile r); EvPrintf ("trying to resuse repo: " ++ root r)])%list,
   Returned true).
Proof.
  intros H. unfold reuseCheck, bind, os_Stat, call. fold (markerFile r).
  rewrite H. cbn -[fetch append]. rewrite app_nil_r, <- app_assoc. cbn -[fetch append].
  destruct (returns_fetch r env
              (h ++ [EvStat (markerFile r);
                     EvPrintf ("trying to resuse repo: " ++ root r)])%list) as [err Herr].
  unfold outcome, events in *.
  destruct (fetch r env _) as [es o]. cbn in Herr. subst o. cbn.
  now rewrite app_nil_r.
Qed.

Lemma run_clone_prefix r env h :
  exists rest,
    events (clone r) env h =
    let ctx := {| ctxSerial := List.length h; ctxTimeout := (30 * time_Second)%Z |} in
    EvWithTimeout ctx ::
    EvPrintf ("cloning repo: " ++ name r ++ ", root: " ++ root r) ::
    EvStart (exec_CommandContext ctx "git" (cloneArgs r)) :: rest.
Proof.
  unfold clone. rewrite events_bind. cbn [events outcome context_WithTimeout fst snd].
  rewrite events_defer, events_bind. cbn [events outcome log_Printf emit fst snd].
  rewrite events_bind. unfold events at 1, outcome at 1. rewrite run_cmd_Start.
  cbn. eexists. reflexivity.
Qed.

(** ** What each function does, case by case *)

Lemma run_remoteName d env h : remoteName d env h = ([], remoteResult d).
Proof.
  unfold remoteName, remoteResult, bind, index.
  destruct (nth_error (Split d "@") 1) as [at1|]; [|reflexivity].
  cbn. unfold Split. destruct (pieces at1 ":"). reflexivity.
Qed.

Lemma run_fetch r env h :
  let ctx := {| ctxSerial := List.length h; ctxTimeout := (30 * time_Second)%Z |} in
  let cmd := setDir (exec_CommandContext ctx "git" fetchArgs) (root r) in
  let intro := [EvWithTimeout ctx;
                EvPrintf ("fetching repo: " ++ name r ++ ", root: " ++ root r)] in
  fetch r env h =
  match env (h ++ intro)%list (EvStart cmd) with
  | Some e =>
      ((intro ++
        [EvStart cmd;
         EvPrintf ("error starting git fetch on repo: " ++ name r ++ ", err: " ++ e);
         EvCancel ctx])%list,
       Returned (Some e))
  | None =>
      match env (h ++ intro ++ [EvStart cmd])%list (EvWait (setProcess cmd true)) with
      | Some e =>
          ((intro ++
            [EvStart cmd; EvWait (setProcess cmd true);
             EvPrintf ("error waiting git fetch on repo: " ++ name r ++ ", err: " ++ e);
             EvCancel ctx])%list,
           Returned (Some e))
      | None =>
          ((intro ++ [EvStart cmd; EvWait (setProcess cmd true); EvCancel ctx])%list,
           Returned None)
      end
  end.
Proof.
  intros ctx cmd intro.
  unfold fetch, bind, defer, context_WithTimeout, log_Printf, emit, cancel, cmd_Wait.
  rewrite run_cmd_Start. cbn -[append Z.mul].
  rewrite <- !app_assoc. cbn -[append Z.mul].
  subst intro cmd. cbn -[append Z.mul].
  destruct (env _ (EvStart _)) as [e|]; cbn -[append Z.mul]; [reflexivity|].
  rewrite <- ?app_assoc. cbn -[append Z.mul].
  destruct (env _ (EvWait _)); reflexivity.
Qed.

Lemma run_clone r env h :
  let ctx := {| ctxSerial := List.length h; ctxTimeout := (30 * time_Second)%Z |} in
  let cmd := exec_CommandContext ctx "git" (cloneArgs r) in
  let intro := [EvWithTimeout ctx;
                EvPrintf ("cloning repo: " ++ name r ++ ", root: " ++ root r)] in
  clone r env h =
  match env (h ++ intro)%list (EvStart cmd) with
  | Some e =>
      ((intro ++
        [EvStart cmd;
         EvPrintf ("error starting git clone on repo: " ++ name r ++ ", err: " ++ e);
         EvPrintf ("error waiting git clone on repo: " ++ name r ++
                   ", err: " ++ "exec: not started");
         EvCancel ctx])%list,
       Returned tt)
  | None =>
      match env (h ++ intro ++ [EvStart cmd])%list (EvWait (setProcess cmd true)) with
      | Some e =>
          ((intro ++
            [EvStart cmd; EvWait (setProcess cmd true);
             EvPrintf ("error waiting git clone on repo: " ++ name r ++ ", err: " ++ e);
             EvCancel ctx])%list,
           Returned tt)
      | None =>
          ((intro ++ [EvStart cmd; EvWait (setProcess cmd true); EvCancel ctx])%list,
           Returned tt)
      end
  end.
Proof.
  intros ctx cmd intro.
  unfold clone, bind, defer, context_WithTimeout, log_Printf, emit, cancel, cmd_Wait.
  rewrite run_cmd_Start. cbn -[append Z.mul].
  rewrite <- !app_assoc. cbn -[append Z.mul].
  subst intro cmd. cbn -[append Z.mul].
  destruct (env _ (EvStart _)) as [e|]; cbn -[append Z.mul]; [reflexivity|].
  rewrite <- ?app_assoc. cbn -[append Z.mul].
  destruct (env _ (EvWait _)); reflexivity.
Qed.

Lemma run_push r env h :
  let ctx := {| ctxSerial := List.length h; ctxTimeout := (30 * time_Second)%Z |} in
  push r env h =
  match remoteResult (destination r) with
  | Panicked p => ([EvWithTimeout ctx; EvCancel ctx], Panicked p)
  | Returned remote =>
      let cmd := setDir (exec_CommandContext ctx "git" (pushArgs remote)) (root r) in
      let intro := [EvWithTimeout ctx;
                    EvPrintf ("pushing repo: " ++ name r ++ ", root: " ++ root r)] in
      match env (h ++ intro)%list (EvStart cmd) with
      | Some e =>
          ((intro ++
            [EvStart cmd;
             EvPrintf ("error starting git push on repo: " ++ name r ++ ", err: " ++ e);
             EvPrintf ("error waiting git push on repo: " ++ name r ++
                       ", err: " ++ "exec: not started");
             EvCancel ctx])%list,
           Returned tt)
      | None =>
          match env (h ++ intro ++ [EvStart cmd])%list (EvWait (setProcess cmd true)) with
          | Some e =>
              ((intro ++
                [EvStart cmd; EvWait (setProcess cmd true);
                 EvPrintf ("error waiting git push on repo: " ++ name r ++ ", err: " ++ e);
                 EvCancel ctx])%list,
               Returned tt)
          | None =>
              ((intro ++ [EvStart cmd; EvWait (setProcess cmd true); EvCancel ctx])%list,
               Returned tt)
          end
      end
  end.
Proof.
  intros ctx.
  unfold push, bind at 1, defer, bind at 1, context_WithTimeout.
  rewrite run_remoteName.
  destruct (remoteResult (destination r)) as [remote|p]; [|reflexivity].
  unfold bind, log_Printf, emit, cancel, cmd_Wait.
  rewrite run_cmd_Start. cbn -[append Z.mul].
  rewrite <- !app_assoc. cbn -[append Z.mul].
  destruct (env _ (EvStart _)) as [e|]; cbn -[append Z.mul]; [reflexivity|].
  rewrite <- ?app_assoc. cbn -[append Z.mul].
  destruct (env _ (EvWait _)); reflexivity.
Qed.

Lemma run_addRemote r env h :
  let mk := EvMkdirAll (filepath.Join [root r; "remotes"]) 511 in
  addRemote r env h =
  match env h mk with
  | Some _ => ([mk], Returned tt)
  | None =>
      match remoteResult (destination r) with
      | Panicked p => ([mk], Panicked p)
      | Returned remote =>
          ([mk;
            EvWriteFile (filepath.Join [root r; "remotes"; remote])
              ("URL: " ++ destination r ++ LF ++
               "Push: +refs/heads/*:refs/heads/*" ++ LF ++
               "Push: +refs/tags/*:refs/tags/*" ++ LF) 511],
           Returned tt)
      end
  end.
Proof.
  intros mk. unfold addRemote, bind at 1, os_MkdirAll, call. fold mk.
  destruct (env h mk); [reflexivity|].
  unfold bind at 1. rewrite run_remoteName.
  destruct (remoteResult (destination r)); reflexivity.
Qed.

(** ** Which events the stages can add *)

Lemma runsGit_verb args dir ev verb :
  runsGit args dir ev -> hd "" args <> verb -> startsGit verb ev = false.
Proof.
  destruct ev; cbn; trivial.
  intros (_ & <- & _) Hverb. unfold gitVerb.
  apply andb_false_iff. right. apply String.eqb_neq.
  destruct (cmdArgs c); exact Hverb.
Qed.

Lemma touchesOnlyMirror_not_mirrors r ev : touchesOnlyMirror r ev -> mirrors ev = false.
Proof.
  intros [-> | [-> | [H | H]]]; try reflexivity;
    destruct ev; cbn in *; try reflexivity; try contradiction;
    destruct H as (_ & Hargs & _); unfold gitVerb; now rewrite Hargs.
Qed.

Lemma registersOrPushes_not_verb r ev verb :
  registersOrPushes r ev -> verb <> "push" -> startsGit verb ev = false.
Proof.
  intros [-> | [(remote & data & ->) | (remote & H)]] Hverb; try reflexivity.
  eapply runsGit_verb; [exact H | cbn; congruence].
Qed.

Lemma emits_branchStage r : emits (touchesOnlyMirror r) (branchStage r).
Proof.
  apply emits_bind; [apply emits_reuseCheck | intros c; apply emits_cloneUnless].
Qed.

Lemma count_fetch_fetch r env h : count (startsGit "fetch") (events (fetch r) env h) = 1.
Proof.
  unfold events. rewrite run_fetch.
  destruct (env _ (EvStart _)); [reflexivity|].
  destruct (env _ (EvWait _)); reflexivity.
Qed.

Lemma count_fetch_mirrorStage fm r env h :
  count (startsGit "fetch") (events (mirrorStage fm r) env h) = 0.
Proof.
  apply count_none. eapply Forall_impl; [|apply emits_mirrorStage].
  intros ev H. eapply registersOrPushes_not_verb; [exact H | discriminate].
Qed.

Lemma count_deletesOrClones_fetch r env h :
  count deletesOrClones (events (fetch r) env h) = 0.
Proof.
  apply count_none. eapply Forall_impl; [|apply emits_fetch].
  intros ev H. assert (startsGit "clone" ev = false) as Hc
    by (eapply runsGit_verb; [exact H | discriminate]).
  destruct ev; cbn in *; trivial; contradiction.
Qed.

Lemma count_deletesOrClones_mirrorStage fm r env h :
  count deletesOrClones (events (mirrorStage fm r) env h) = 0.
Proof.
  apply count_none. eapply Forall_impl; [|apply emits_mirrorStage].
  intros ev H. assert (startsGit "clone" ev = false) as Hc
    by (eapply registersOrPushes_not_verb; [exact H | discriminate]).
  destruct ev; cbn in *; trivial.
  destruct H as [H | [(? & ? & H) | (? & H)]]; try discriminate H. contradiction.
Qed.

Lemma syncRepo_absent_marker fm r env h e :
  env h (EvStat (markerFile r)) = Some e ->
  outcome (reuseCheck r) env h = Returned false /\
  exists rest,
    events (syncRepo fm r) env h =
    let ctx := {| ctxSerial := List.length h + 3; ctxTimeout := (30 * time_Second)%Z |} in
    EvStat (markerFile r) ::
    EvPrintf ("can't resuse repo: " ++ root r) ::
    EvRemoveAll (root r) ::
    EvWithTimeout ctx ::
    EvPrintf ("cloning repo: " ++ name r ++ ", root: " ++ root r) ::
    EvStart (exec_CommandContext ctx "git" (cloneArgs r)) ::
    rest.
Proof.
  intros Hstat.
  assert (events (reuseCheck r) env h =
          [EvStat (markerFile r); EvPrintf ("can't resuse repo: " ++ root r)]) as Hev
    by (unfold events; now rewrite (run_reuseCheck_absent _ _ _ _ Hstat)).
  assert (outcome (reuseCheck r) env h = Returned false) as Hout
    by (unfold outcome; now rewrite (run_reuseCheck_absent _ _ _ _ Hstat)).
  split; [exact Hout|].
  rewrite events_syncRepo. unfold branchStage. rewrite events_bind, Hev, Hout.
  cbn [cloneUnless negb]. rewrite events_bind.
  change (events (os_RemoveAll (root r)) env ?x) with [EvRemoveAll (root r)].
  change (outcome (os_RemoveAll (root r)) env ?x)
    with (Returned (env x (EvRemoveAll (root r)))).
  cbv iota beta.
  match goal with
  | |- context [events (clone r) env ?x] =>
      destruct (run_clone_prefix r env x) as [rest ->]
  end.
  rewrite !length_app. cbn [List.length]. rewrite <- Nat.add_assoc.
  cbn -[append Z.mul]. eexists. reflexivity.
Qed.

Lemma buildRepos_map cacheDir mappings :
  buildRepos cacheDir mappings = map (newRepo cacheDir) mappings.
Proof.
  unfold buildRepos.
  assert (forall acc, fold_left (fun re r => (re ++ [newRepo cacheDir r])%list) mappings acc
                      = (acc ++ map (newRepo cacheDir) mappings)%list) as H.
  { induction mappings as [|m ms IH]; intros acc; cbn.
    - now rewrite app_nil_r.
    - rewrite IH, <- app_assoc. reflexivity. }
  apply H.
Qed.

(** ** The scenario of the specification *)

Section Scenario.
Variables (cacheRoot src : string).
Hypothesis Hclean : isCleanDir cacheRoot = true.

Let r := newRepo cacheRoot (mapScenario src).

Lemma scenario_root : root r = (cacheRoot ++ "/a")%string.
Proof. unfold r, newRepo, root. now rewrite Join_cleanDir. Qed.

Lemma scenario_remotes :
  filepath.Join [root r; "remotes"] = (cacheRoot ++ "/a/remotes")%string.
Proof.
  rewrite scenario_root.
  rewrite (Join_cleanDir _ (isCleanDir_snoc _ Hclean "a" eq_refl)) by reflexivity.
  now rewrite append_assoc.
Qed.

Lemma scenario_remote_file :
  filepath.Join [root r; "remotes"; "bb"] = (cacheRoot ++ "/a/remotes/bb")%string.
Proof.
  rewrite scenario_root.
  change (cacheRoot ++ "/a")%string with (cacheRoot ++ "/" ++ "a")%string.
  rewrite (Join_cleanDir3 _ "remotes" "bb" (isCleanDir_snoc _ Hclean "a" eq_refl))
    by reflexivity.
  now rewrite append_assoc.
Qed.

End Scenario.

Lemma count_mirrors_before_mirrorStage r env h :
  count mirrors
    (events (branchStage r) env h ++
     events (fetch r) env (h ++ events (branchStage r) env h))%list = 0.
Proof.
  apply count_none, Forall_app; split.
  - eapply Forall_impl; [|apply emits_branchStage].
    intros ev. apply touchesOnlyMirror_not_mirrors.
  - eapply Forall_impl; [|apply emits_fetch].
    intros ev H. apply (touchesOnlyMirror_not_mirrors r). now do 3 right.
Qed.

Lemma run_push_prefix r env h remote :
  remoteResult (destination r) = Returned remote ->
  exists rest,
    events (push r) env h =
    let ctx := {| ctxSerial := List.length h; ctxTimeout := (30 * time_Second)%Z |} in
    EvWithTimeout ctx ::
    EvPrintf ("pushing repo: " ++ name r ++ ", root: " ++ root r) ::
    EvStart (setDir (exec_CommandContext ctx "git" (pushArgs remote)) (root r)) :: rest.
Proof.
  intros Hremote. unfold events. rewrite run_push, Hremote. cbv zeta.
  destruct (env _ (EvStart _)); [eexists; reflexivity|].
  destruct (env _ (EvWait _)); eexists; reflexivity.
Qed.

(** ** Every child process runs inside a cancelled context of 30 seconds *)

Lemma wellScoped_app evs1 evs2 :
  wellScoped evs1 -> wellScoped evs2 -> wellScoped (evs1 ++ evs2).
Proof.
  induction 1 as [|ev evs Hev _ IH|blk evs Hblk _ IH]; intros H2; cbn.
  - exact H2.
  - apply ws_plain; auto.
  - rewrite <- app_assoc. apply ws_block; auto.
Qed.

Lemma wellScoped_scoped evs : scoped evs -> wellScoped evs.
Proof.
  intros H. rewrite <- (app_nil_r evs). apply ws_block; [exact H | constructor].
Qed.

Ltac solve_scoped :=
  eexists; eexists; split;
  [ cbn -[append Z.mul];
    match goal with
    | |- EvWithTimeout ?c :: ?l = EvWithTimeout _ :: _ ++ [EvCancel _] =>
        apply (f_equal (cons (EvWithTimeout c)));
        first [ exact (eq_refl : l = [] ++ [EvCancel c])%list
              | exact (eq_refl : l = [_] ++ [EvCancel c])%list
              | exact (eq_refl : l = [_; _] ++ [EvCancel c])%list
              | exact (eq_refl : l = [_; _; _] ++ [EvCancel c])%list
              | exact (eq_refl : l = [_; _; _; _] ++ [EvCancel c])%list ]
    end
  | split; [reflexivity | repeat constructor] ].

Lemma scoped_fetch r env h : scoped (events (fetch r) env h).
Proof.
  unfold events. rewrite run_fetch. cbv zeta.
  destruct (env _ (EvStart _)); [solve_scoped|].
  destruct (env _ (EvWait _)); solve_scoped.
Qed.

Lemma scoped_clone r env h : scoped (events (clone r) env h).
Proof.
  unfold events. rewrite run_clone. cbv zeta.
  destruct (env _ (EvStart _)); [solve_scoped|].
  destruct (env _ (EvWait _)); solve_scoped.
Qed.

Lemma scoped_push r env h : scoped (events (push r) env h).
Proof.
  unfold events. rewrite run_push. cbv zeta.
  destruct (remoteResult (destination r)); [|solve_scoped].
  destruct (env _ (EvStart _)); [solve_scoped|].
  destruct (env _ (EvWait _)); solve_scoped.
Qed.

Lemma wellScoped_reuseCheck r env h : wellScoped (events (reuseCheck r) env h).
Proof.
  unfold events. destruct (env h (EvStat (markerFile r))) as [e|] eqn:Hstat.
  - rewrite (run_reuseCheck_absent _ _ _ _ Hstat). cbn [fst].
    repeat (apply ws_plain; [exact I|]). constructor.
  - rewrite (run_reuseCheck_present _ _ _ Hstat). cbn [fst].
    repeat (apply ws_plain; [exact I|]). apply wellScoped_scoped, scoped_fetch.
Qed.

Lemma wellScoped_cloneUnless c r env h : wellScoped (events (cloneUnless c r) env h).
Proof.
  destruct c; cbn [cloneUnless negb]; [constructor|].
  rewrite events_bind. cbn [events outcome os_RemoveAll call fst snd app].
  apply ws_plain; [exact I|]. apply wellScoped_scoped, scoped_clone.
Qed.

Lemma wellScoped_addRemote r env h : wellScoped (events (addRemote r) env h).
Proof.
  unfold events. rewrite run_addRemote. cbv zeta.
  destruct (env h _); [|destruct (remoteResult (destination r))]; cbn [fst];
    repeat (apply ws_plain; [exact I|]); constructor.
Qed.

Lemma wellScoped_mirrorStage fm r env h : wellScoped (events (mirrorStage fm r) env h).
Proof.
  destruct fm; cbn [mirrorStage]; [|constructor].
  rewrite events_bind. apply wellScoped_app; [apply wellScoped_addRemote|].
  destruct (outcome (addRemote r) env h); [|constructor].
  apply wellScoped_scoped, scoped_push.
Qed.

Lemma wellScoped_syncRepo fm r env h : wellScoped (events (syncRepo fm r) env h).
Proof.
  rewrite events_syncRepo. repeat apply wellScoped_app.
  - unfold branchStage. rewrite events_bind.
    apply wellScoped_app; [apply wellScoped_reuseCheck|].
    destruct (outcome (reuseCheck r) env h); [apply wellScoped_cloneUnless | constructor].
  - apply wellScoped_scoped, scoped_fetch.
  - apply wellScoped_mirrorStage.
Qed.

(** ** Errors of child processes reach the log *)

Lemma errorsLogged_app r env h evs1 evs2 :
  errorsLogged r env h evs1 ->
  errorsLogged r env (h ++ evs1)%list evs2 ->
  errorsLogged r env h (evs1 ++ evs2)%list.
Proof.
  revert h. induction evs1 as [|ev evs1 IH]; intros h H1 H2; cbn in *.
  - now rewrite app_nil_r in H2.
  - destruct H1 as [Hev H1]. split.
    + intros e line He Hline. apply in_or_app. left. now apply (Hev e).
    + apply IH; [exact H1|]. now rewrite <- app_assoc.
Qed.

Lemma errorsLogged_split r env h evs :
  errorsLogged r env h evs ->
  forall pre ev post e line,
    evs = (pre ++ ev :: post)%list ->
    env (h ++ pre)%list ev = Some e ->
    errorLine r ev e = Some line ->
    In (EvPrintf line) post.
Proof.
  intros H pre. revert h evs H.
  induction pre as [|x pre IH]; intros h evs H ev post e line -> He Hline; cbn in H.
  - rewrite app_nil_r in He. destruct H as [H _]. now apply (H e).
  - destruct H as [_ H]. apply (IH _ _ H ev post e line eq_refl); [|exact Hline].
    now rewrite <- app_assoc.
Qed.

Lemma errorsLogged_plain r env h evs :
  Forall plain evs -> errorsLogged r env h evs.
Proof.
  intros H. revert h. induction H as [|ev evs Hev _ IH]; intros h; cbn; [exact I|].
  split; [|apply IH].
  intros e line _ Hline. destruct ev; cbn in *; try discriminate; contradiction.
Qed.

Ltac solve_logged :=
  cbn -[append Z.mul]; rewrite <- ?app_assoc; cbn -[append Z.mul];
  repeat split;
  intros ? ? ?Hanswer ?Hline;
  cbn -[append Z.mul] in *;
  try discriminate;
  repeat match goal with
         | H1 : ?x = Some _, H2 : ?x = None |- _ => rewrite H1 in H2; discriminate
         | H1 : ?x = Some ?a, H2 : ?x = Some ?b |- _ =>
             rewrite H1 in H2; injection H2 as <-
         | H : Some _ = Some _ |- _ => injection H as <-
         end;
  cbn -[append Z.mul]; auto 10.

Lemma errorsLogged_fetch r env h : errorsLogged r env h (events (fetch r) env h).
Proof.
  unfold events. rewrite run_fetch. cbv zeta.
  destruct (env _ (EvStart _)) eqn:Hstart; [solve_logged|].
  destruct (env _ (EvWait _)) eqn:Hwait; solve_logged.
Qed.

Lemma errorsLogged_clone r env h : errorsLogged r env h (events (clone r) env h).
Proof.
  unfold events. rewrite run_clone. cbv zeta.
  destruct (env _ (EvStart _)) eqn:Hstart; [solve_logged|].
  destruct (env _ (EvWait _)) eqn:Hwait; solve_logged.
Qed.

Lemma errorsLogged_push r env h : errorsLogged r env h (events (push r) env h).
Proof.
  unfold events. rewrite run_push. cbv zeta.
  destruct (remoteResult (destination r)); [|solve_logged].
  destruct (env _ (EvStart _)) eqn:Hstart; [solve_logged|].
  destruct (env _ (EvWait _)) eqn:Hwait; solve_logged.
Qed.

Lemma errorsLogged_reuseCheck r env h :
  errorsLogged r env h (events (reuseCheck r) env h).
Proof.
  unfold events. destruct (env h (EvStat (markerFile r))) as [e|] eqn:Hstat.
  - rewrite (run_reuseCheck_absent _ _ _ _ Hstat). cbn [fst].
    apply errorsLogged_plain. repeat constructor.
  - rewrite (run_reuseCheck_present _ _ _ Hstat). cbn [fst].
    apply (errorsLogged_app r env h [_; _]).
    + apply errorsLogged_plain. repeat constructor.
    + apply errorsLogged_fetch.
Qed.

Lemma errorsLogged_cloneUnless c r env h :
  errorsLogged r env h (events (cloneUnless c r) env h).
Proof.
  destruct c; cbn [cloneUnless negb]; [exact I|].
  rewrite events_bind. cbn [events outcome os_RemoveAll call fst snd].
  apply errorsLogged_app.
  - apply errorsLogged_plain. repeat constructor.
  - apply errorsLogged_clone.
Qed.

Lemma errorsLogged_addRemote r env h :
  errorsLogged r env h (events (addRemote r) env h).
Proof.
  apply errorsLogged_plain.
  unfold events. rewrite run_addRemote. cbv zeta.
  destruct (env h _); [|destruct (remoteResult (destination r))];
    repeat constructor.
Qed.

Lemma errorsLogged_mirrorStage fm r env h :
  errorsLogged r env h (events (mirrorStage fm r) env h).
Proof.
  destruct fm; cbn [mirrorStage]; [|exact I].
  rewrite events_bind. apply errorsLogged_app; [apply errorsLogged_addRemote|].
  destruct (outcome (addRemote r) env h); [apply errorsLogged_push | exact I].
Qed.

Lemma errorsLogged_syncRepo fm r env h :
  errorsLogged r env h (events (syncRepo fm r) env h).
Proof.
  rewrite events_syncRepo.
  apply errorsLogged_app; [|apply errorsLogged_app].
  - unfold branchStage. rewrite events_bind.
    apply errorsLogged_app; [apply errorsLogged_reuseCheck|].
    destruct (outcome (reuseCheck r) env h); [apply errorsLogged_cloneUnless | exact I].
  - apply errorsLogged_fetch.
  - rewrite <- app_assoc. apply errorsLogged_mirrorStage.
Qed.

(** ** No error of the environment ends the loop body *)

Lemma outcome_mirrorStage fm r env h :
  canMirror fm r -> outcome (mirrorStage fm r) env h = Returned tt.
Proof.
  intros [-> | (remote & Hremote)]; [reflexivity|].
  destruct fm; [|reflexivity]. cbn [mirrorStage].
  rewrite outcome_bind. unfold outcome, events.
  rewrite run_addRemote, Hremote. cbv zeta.
  assert (forall h', snd (push r env h') = Returned tt) as Hpush.
  { intros h'. rewrite run_push, Hremote. cbv zeta.
    destruct (env _ (EvStart _)); [reflexivity|].
    destruct (env _ (EvWait _)); reflexivity. }
  destruct (env h _); cbn [fst snd]; apply Hpush.
Qed.

Lemma outcome_syncRepo_canMirror fm r env h :
  canMirror fm r -> outcome (syncRepo fm r) env h = Returned tt.
Proof. intros H. rewrite outcome_syncRepo. now apply outcome_mirrorStage. Qed.

Lemma events_worker_cons fm r rest env h :
  canMirror fm r ->
  events (worker fm (r :: rest)) env h =
  (events (syncRepo fm r) env h ++
   events (worker fm rest) env (h ++ events (syncRepo fm r) env h))%list.
Proof.
  intros H. cbn [worker]. rewrite events_bind.
  now rewrite (outcome_syncRepo_canMirror fm r env h H).
Qed.

(** ** The later stages are attempted whatever failed before *)

Lemma fetch_attempted r env h :
  In (EvStart (setDir (exec_CommandContext
                         {| ctxSerial := List.length h;
                            ctxTimeout := (30 * time_Second)%Z |} "git" fetchArgs)
                      (root r)))
     (events (fetch r) env h).
Proof.
  unfold events. rewrite run_fetch. cbv zeta.
  destruct (env _ (EvStart _)); [cbn; auto|].
  destruct (env _ (EvWait _)); cbn; auto.
Qed.

Lemma mkdir_attempted r env h :
  In (EvMkdirAll (filepath.Join [root r; "remotes"]) 511) (events (addRemote r) env h).
Proof.
  unfold events. rewrite run_addRemote. cbv zeta.
  destruct (env h _); [|destruct (remoteResult (destination r))]; cbn; auto.
Qed.

Lemma push_attempted r env h remote :
  remoteResult (destination r) = Returned remote ->
  exists ctx,
    In (EvStart (setDir (exec_CommandContext ctx "git" (pushArgs remote)) (root r)))
       (events (mirrorStage true r) env h).
Proof.
  intros Hremote. cbn [mirrorStage]. rewrite events_bind.
  assert (outcome (addRemote r) env h = Returned tt) as ->.
  { unfold outcome. rewrite run_addRemote, Hremote. cbv zeta.
    now destruct (env h _). }
  destruct (run_push_prefix r env (h ++ events (addRemote r) env h)%list remote Hremote)
    as [rest Hrest].
  eexists. apply in_or_app. right. rewrite Hrest. cbv zeta. cbn. auto.
Qed.

Lemma events_branchStage_present r env h :
  env h (EvStat (markerFile r)) = None ->
  events (branchStage r) env h =
  ([EvStat (markerFile r); EvPrintf ("trying to resuse repo: " ++ root r)] ++
   events (fetch r) env
     (h ++ [EvStat (markerFile r); EvPrintf ("trying to resuse repo: " ++ root r)]))%list.
Proof.
  intros Hstat.
  assert (events (reuseCheck r) env h = fst (reuseCheck r env h)) as Hev by reflexivity.
  assert (outcome (reuseCheck r) env h = snd (reuseCheck r env h)) as Hout by reflexivity.
  rewrite (run_reuseCheck_present _ _ _ Hstat) in Hev, Hout. cbn [fst snd] in Hev, Hout.
  unfold branchStage. rewrite events_bind, Hout, Hev.
  cbn [cloneUnless negb]. unfold events at 2. cbn [ret fst].
  now rewrite app_nil_r.
Qed.

Lemma events_branchStage_absent r env h e :
  env h (EvStat (markerFile r)) = Some e ->
  events (branchStage r) env h =
  ([EvStat (markerFile r); EvPrintf ("can't resuse repo: " ++ root r);
    EvRemoveAll (root r)] ++
   events (clone r) env
     (h ++ [EvStat (markerFile r); EvPrintf ("can't resuse repo: " ++ root r);
            EvRemoveAll (root r)]))%list.
Proof.
  intros Hstat.
  assert (events (reuseCheck r) env h = fst (reuseCheck r env h)) as Hev by reflexivity.
  assert (outcome (reuseCheck r) env h = snd (reuseCheck r env h)) as Hout by reflexivity.
  rewrite (run_reuseCheck_absent _ _ _ _ Hstat) in Hev, Hout. cbn [fst snd] in Hev, Hout.
  unfold branchStage. rewrite events_bind, Hout, Hev.
  cbn [cloneUnless negb]. rewrite events_bind.
  change (events (os_RemoveAll (root r)) env ?x) with [EvRemoveAll (root r)].
  change (outcome (os_RemoveAll (root r)) env ?x)
    with (Returned (env x (EvRemoveAll (root r)))).
  cbv iota beta. rewrite <- !app_assoc. reflexivity.
Qed.

(** ** What the loop body logs, and what it does with the results it drops *)

Lemma logLines_app evs1 evs2 : logLines (evs1 ++ evs2) = (logLines evs1 ++ logLines evs2)%list.
Proof. apply flat_map_app. Qed.

(** A command of [git verb], to name the line of its errors. *)
Ltac line_of verb :=
  right;
  first [ exists (EvStart (exec_CommandContext {| ctxSerial := 0; ctxTimeout := 0%Z |}
                             "git" [verb])); eexists; reflexivity
        | exists (EvWait (exec_CommandContext {| ctxSerial := 0; ctxTimeout := 0%Z |}
                            "git" [verb])); eexists; reflexivity ].

Ltac solve_lines :=
  cbn -[append Z.mul]; rewrite <- ?app_assoc; cbn -[append Z.mul];
  repeat (constructor;
          [ first [ left; unfold stageLine; tauto
                  | line_of "fetch" | line_of "clone" | line_of "push" ] | ]);
  try constructor.

Lemma lines_fetch r env h :
  Forall (fun line => stageLine r line \/ childErrorLine r line)
    (logLines (events (fetch r) env h)).
Proof.
  unfold events. rewrite run_fetch. cbv zeta.
  destruct (env _ (EvStart _)); [solve_lines|].
  destruct (env _ (EvWait _)); solve_lines.
Qed.

Lemma lines_clone r env h :
  Forall (fun line => stageLine r line \/ childErrorLine r line)
    (logLines (events (clone r) env h)).
Proof.
  unfold events. rewrite run_clone. cbv zeta.
  destruct (env _ (EvStart _)); [solve_lines|].
  destruct (env _ (EvWait _)); solve_lines.
Qed.

Lemma lines_push r env h :
  Forall (fun line => stageLine r line \/ childErrorLine r line)
    (logLines (events (push r) env h)).
Proof.
  unfold events. rewrite run_push. cbv zeta.
  destruct (remoteResult (destination r)); [|solve_lines].
  destruct (env _ (EvStart _)); [solve_lines|].
  destruct (env _ (EvWait _)); solve_lines.
Qed.

(** [addRemote] logs nothing, whatever the file system answers. *)
Lemma lines_addRemote r env h : logLines (events (addRemote r) env h) = [].
Proof.
  unfold events. rewrite run_addRemote. cbv zeta.
  destruct (env h _); [|destruct (remoteResult (destination r))]; reflexivity.
Qed.

Lemma lines_branchStage r env h :
  Forall (fun line => stageLine r line \/ childErrorLine r line)
    (logLines (events (branchStage r) env h)).
Proof.
  destruct (env h (EvStat (markerFile r))) as [e|] eqn:Hstat.
  - rewrite (events_branchStage_absent _ _ _ _ Hstat), logLines_app.
    apply Forall_app. split; [solve_lines | apply lines_clone].
  - rewrite (events_branchStage_present _ _ _ Hstat), logLines_app.
    apply Forall_app. split; [solve_lines | apply lines_fetch].
Qed.

Lemma lines_mirrorStage fm r env h :
  Forall (fun line => stageLine r line \/ childErrorLine r line)
    (logLines (events (mirrorStage fm r) env h)).
Proof.
  destruct fm; cbn [mirrorStage]; [|constructor].
  rewrite events_bind, logLines_app, lines_addRemote. cbn [app].
  destruct (outcome (addRemote r) env h); [apply lines_push | constructor].
Qed.

(** Every line the loop body logs is a line about its progress or the line
    of an error of a child process. *)
Lemma lines_syncRepo fm r env h :
  Forall (fun line => stageLine r line \/ childErrorLine r line)
    (logLines (events (syncRepo fm r) env h)).
Proof.
  rewrite events_syncRepo, !logLines_app.
  apply Forall_app; split; [|apply Forall_app; split].
  - apply lines_branchStage.
  - apply lines_fetch.
  - apply lines_mirrorStage.
Qed.

Section Discarded.

Variables env env' : Env.
Hypothesis Hsame : sameButDiscarded env env'.

Lemma same_bind {A B} (m : M A) (k : A -> M B) :
  (forall h, m env' h = m env h) ->
  (forall a h, k a env' h = k a env h) ->
  forall h, bind m k env' h = bind m k env h.
Proof.
  intros Hm Hk h. unfold bind. rewrite Hm.
  destruct (m env h) as [es [a|p]]; [|reflexivity]. now rewrite Hk.
Qed.

(** A call whose result is dropped. *)
Lemma same_discard {B} ev (k : M B) :
  (forall h, k env' h = k env h) ->
  forall h, bind (call ev) (fun _ => k) env' h = bind (call ev) (fun _ => k) env h.
Proof.
  intros Hk h. unfold bind, call. now rewrite Hk.
Qed.

Lemma same_fetch r h : fetch r env' h = fetch r env h.
Proof.
  rewrite !run_fetch. cbv zeta. now rewrite !Hsame by reflexivity.
Qed.

Lemma same_clone r h : clone r env' h = clone r env h.
Proof.
  rewrite !run_clone. cbv zeta. now rewrite !Hsame by reflexivity.
Qed.

Lemma same_push r h : push r env' h = push r env h.
Proof.
  rewrite !run_push. cbv zeta.
  destruct (remoteResult (destination r)); [|reflexivity].
  now rewrite !Hsame by reflexivity.
Qed.

Lemma same_addRemote r h : addRemote r env' h = addRemote r env h.
Proof.
  rewrite !run_addRemote. cbv zeta. now rewrite Hsame by reflexivity.
Qed.

Lemma same_reuseCheck r h : reuseCheck r env' h = reuseCheck r env h.
Proof.
  pose proof (Hsame h (EvStat (markerFile r)) eq_refl eq_refl) as Hstat.
  destruct (env h (EvStat (markerFile r))) as [e|] eqn:He.
  - now rewrite (run_reuseCheck_absent r env' h e Hstat), (run_reuseCheck_absent r env h e He).
  - rewrite (run_reuseCheck_present r env' h Hstat), (run_reuseCheck_present r env h He).
    unfold events. now rewrite same_fetch.
Qed.

Lemma same_cloneUnless c r h : cloneUnless c r env' h = cloneUnless c r env h.
Proof.
  destruct c; cbn [cloneUnless negb]; [reflexivity|].
  unfold os_RemoveAll. revert h. apply same_discard. apply same_clone.
Qed.

Lemma same_mirrorStage fm r h : mirrorStage fm r env' h = mirrorStage fm r env h.
Proof.
  destruct fm; cbn [mirrorStage]; [|reflexivity].
  revert h. apply same_bind; [apply same_addRemote | intros _; apply same_push].
Qed.

(** The loop body runs alike in both environments: what the deletion of the
    local root and the write of the registration file return changes
    nothing. *)
Lemma same_syncRepo fm r h : syncRepo fm r env' h = syncRepo fm r env h.
Proof.
  unfold syncRepo. revert h.
  apply same_bind; [apply same_reuseCheck | intros c].
  apply same_bind; [apply same_cloneUnless | intros _].
  apply same_bind; [apply same_fetch | intros _].
  apply same_mirrorStage.
Qed.

End Discarded.

(** ** The dispatcher keeps its invariant *)

Lemma length_setNth k g ws : List.length (setNth k g ws) = List.length ws.
Proof.
  revert k. induction ws as [|w ws IH]; intros [|k]; cbn; auto.
Qed.

Lemma running_snoc_Receiving ws : running (ws ++ [Receiving]) = running ws.
Proof.
  induction ws as [|[|r|] ws IH]; cbn; auto. now rewrite IH.
Qed.

Lemma length_running ws : List.length (running ws) <= List.length ws.
Proof.
  induction ws as [|[|r|] ws IH]; cbn; lia.
Qed.

Lemma running_receive k r ws :
  nth_error ws k = Some Receiving ->
  Permutation (r :: running ws) (running (setNth k (Running r) ws)).
Proof.
  revert k. induction ws as [|w ws IH]; intros [|k] H; cbn in *; try discriminate.
  - injection H as ->. reflexivity.
  - destruct w; cbn; auto.
    rewrite perm_swap. constructor. now apply IH.
Qed.

Lemma running_finish k r ws :
  nth_error ws k = Some (Running r) ->
  Permutation (running ws) (r :: running (setNth k Receiving ws)).
Proof.
  revert k. induction ws as [|w ws IH]; intros [|k] H; cbn in *; try discriminate.
  - injection H as ->. reflexivity.
  - destruct w; cbn; auto.
    rewrite perm_swap. constructor. now apply IH.
Qed.

Lemma running_exit k ws :
  nth_error ws k = Some Receiving -> running (setNth k Exited ws) = running ws.
Proof.
  revert k. induction ws as [|w ws IH]; intros [|k] H; cbn in *; try discriminate.
  - injection H as ->. reflexivity.
  - destruct w; cbn; auto. f_equal. now apply IH.
Qed.




Lemma poolInv_init repos : poolInv repos initPool.
Proof.
  split; cbn.
  - repeat split. unfold max. lia.
  - exists []. split; [reflexivity | constructor].
Qed.

Lemma poolInv_stepMain repos p p' :
  poolInv repos p -> stepMain repos p = Some p' -> poolInv repos p'.
Proof.
  intros [Hpc (sent & Hsent & Hperm)]. unfold stepMain, poolInv, pending in *.
  destruct (alive p); [|discriminate].
  destruct (pc p) as [i|[|r rest]| |] eqn:Epc; try discriminate.
  - destruct Hpc as (Hlen & Hi & Hcl).
    destruct (Nat.ltb_spec i max) as [Hlt|Hge]; intros [= <-]; cbn.
    + split.
      * rewrite length_app. cbn. repeat split; trivial; lia.
      * exists sent. rewrite running_snoc_Receiving. now split.
    + split.
      * split; trivial. lia.
      * exists sent. now split.
  - intros [= <-]. cbn. split.
    + now destruct Hpc.
    + exists sent. now split.
  - intros [= <-]. cbn. split.
    + exact Hpc.
    + exists sent. now split.
Qed.

Lemma poolInv_stepWorker fm env repos k p p' :
  poolInv repos p -> stepWorker fm env k p = Some p' -> poolInv repos p'.
Proof.
  intros [Hpc (sent & Hsent & Hperm)]. unfold stepWorker.
  destruct (alive p); [|discriminate].
  destruct (nth_error (workers p) k) as [[|r|]|] eqn:Ek; try discriminate.
  - assert (closed p = true ->
            poolInv repos {| pc := pc p; closed := closed p;
                             workers := setNth k Exited (workers p);
                             finished := finished p;
                             trace := trace p; died := died p |}) as Hexit.
    { intros Hcl. unfold poolInv, pending in *. cbn.
      rewrite length_setNth, running_exit by assumption.
      split; [exact Hpc | now exists sent]. }
    destruct (pc p) as [i|[|r rest]| |] eqn:Epc.
    + destruct (closed p); [|discriminate]. intros [= <-]. now apply Hexit.
    + destruct (closed p); [|discriminate]. intros [= <-]. now apply Hexit.
    + intros [= <-]. unfold poolInv, pending in *. cbn. rewrite Epc in *.
      rewrite length_setNth. split; [exact Hpc|].
      exists (sent ++ [r])%list. split.
      * now rewrite <- app_assoc.
      * rewrite <- (running_receive k r) by assumption.
        rewrite Permutation_app_comm. cbn. now constructor.
    + destruct (closed p); [|discriminate]. intros [= <-]. now apply Hexit.
    + destruct (closed p); [|discriminate]. intros [= <-]. now apply Hexit.
  - destruct (outcome (syncRepo fm r) env (trace p)) as [u|e].
    + intros [= <-]. unfold poolInv, pending in *. cbn.
      rewrite length_setNth. split; [exact Hpc|].
      exists sent. split; [exact Hsent|].
      rewrite Hperm, (running_finish k r) by eassumption.
      cbn. apply Permutation_middle.
    + intros [= <-]. unfold poolInv, pending in *. cbn.
      split; [exact Hpc|]. exists sent. now split.
Qed.

Lemma poolInv_step fm env repos c p p' :
  poolInv repos p -> step fm env repos c p = Some p' -> poolInv repos p'.
Proof.
  destruct c as [|k]; cbn.
  - apply poolInv_stepMain.
  - apply poolInv_stepWorker.
Qed.

Lemma poolInv_runPool fm env repos sched p p' :
  poolInv repos p -> runPool fm env repos sched p = Some p' -> poolInv repos p'.
Proof.
  revert p. induction sched as [|c sched IH]; intros p Hinv; cbn.
  - now intros [= <-].
  - destruct (step fm env repos c p) as [q|] eqn:Estep; [|discriminate].
    apply IH. now apply (poolInv_step fm env repos c p).
Qed.





















Lemma runPool_app fm env repos s1 s2 p :
  runPool fm env repos (s1 ++ s2) p =
  match runPool fm env repos s1 p with
  | Some q => runPool fm env repos s2 q
  | None => None
  end.
Proof.
  revert p. induction s1 as [|c s1 IH]; intros p; cbn; [reflexivity|].
  destruct (step fm env repos c p); [apply IH | reflexivity].
Qed.

(** * The claims *)

(** ** The reuse check after a failed probe *)

(** C1 (the code departs from the claim): when the marker file exists and
    the fetch that tries the existing mirror fails, the reuse check still
    answers that the mirror can be reused, and the whole loop body neither
    deletes the mirror nor clones: the error tested after that fetch is the
    one [os.Stat] returned, which is nil on this path. *)
Theorem failed_probe_keeps_reuse fm r env h e :
  env h (EvStat (markerFile r)) = None ->
  outcome (fetch r) env
    (h ++ [EvStat (markerFile r); EvPrintf ("trying to resuse repo: " ++ root r)])%list
  = Returned (Some e) ->
  outcome (reuseCheck r) env h = Returned true /\
  count deletesOrClones (events (syncRepo fm r) env h) = 0.
Proof.
  intros Hstat _. split.
  - unfold outcome. now rewrite run_reuseCheck_present.
  - rewrite events_syncRepo, !count_app.
    rewrite count_deletesOrClones_fetch, count_deletesOrClones_mirrorStage.
    unfold branchStage. rewrite events_bind.
    unfold events at 1, outcome. rewrite run_reuseCheck_present by assumption.
    cbn [fst snd cloneUnless negb]. rewrite count_app.
    change (EvStat (markerFile r) :: EvPrintf ("trying to resuse repo: " ++ root r) ::
            events (fetch r) env
              (h ++ [EvStat (markerFile r);
                     EvPrintf ("trying to resuse repo: " ++ root r)]))%list
      with ([EvStat (markerFile r); EvPrintf ("trying to resuse repo: " ++ root r)] ++
            events (fetch r) env
              (h ++ [EvStat (markerFile r);
                     EvPrintf ("trying to resuse repo: " ++ root r)]))%list.
    rewrite count_app, count_deletesOrClones_fetch. reflexivity.
Qed.

(** The theorem [failed_probe_keeps_reuse] at a concrete input. *)
Lemma failed_probe_keeps_reuse_witness :
  outcome (reuseCheck repoA) envFetchFails [] = Returned true /\
  count deletesOrClones (events (syncRepo true repoA) envFetchFails []) = 0.
Proof.
  apply (failed_probe_keeps_reuse true repoA envFetchFails [] "exit status 128");
    reflexivity.
Defined.

(** ** The dispatcher *)




(** ** An absent marker file *)

(** C3: when the marker file is absent the reuse check answers that the
    mirror cannot be reused, and the loop body deletes the local root and then
    starts [git clone --mirror source root], whatever the deletion returned. *)
Theorem absent_marker_deletes_then_clones fm r env h e :
  env h (EvStat (markerFile r)) = Some e ->
  outcome (reuseCheck r) env h = Returned false /\
  exists rest,
    events (syncRepo fm r) env h =
    let ctx := {| ctxSerial := List.length h + 3; ctxTimeout := (30 * time_Second)%Z |} in
    EvStat (markerFile r) ::
    EvPrintf ("can't resuse repo: " ++ root r) ::
    EvRemoveAll (root r) ::
    EvWithTimeout ctx ::
    EvPrintf ("cloning repo: " ++ name r ++ ", root: " ++ root r) ::
    EvStart (exec_CommandContext ctx "git" ["clone"; "--mirror"; source r; root r]) ::
    rest.
Proof. exact (syncRepo_absent_marker fm r env h e). Qed.

(** The theorem [absent_marker_deletes_then_clones] at a concrete input. *)
Lemma absent_marker_deletes_then_clones_witness :
  outcome (reuseCheck repoA) envEmptyCache [] = Returned false /\
  exists rest,
    events (syncRepo true repoA) envEmptyCache [] =
    let ctx := {| ctxSerial := 3; ctxTimeout := (30 * time_Second)%Z |} in
    EvStat "/cache/a/FETCH_HEAD" ::
    EvPrintf "can't resuse repo: /cache/a" ::
    EvRemoveAll "/cache/a" ::
    EvWithTimeout ctx ::
    EvPrintf "cloning repo: a, root: /cache/a" ::
    EvStart (exec_CommandContext ctx "git" ["clone"; "--mirror"; "ssh://src/a"; "/cache/a"]) ::
    rest.
Proof.
  apply (absent_marker_deletes_then_clones true repoA envEmptyCache []
           "no such file or directory").
  reflexivity.
Defined.

(** ** The fetch that always runs *)

(** C4: the loop body is the reuse check with its deletion and clone, then
    the events of one call of [fetch], then the mirroring stages; the part
    before always returns, whatever the environment answered to the clone
    or to anything else; the middle part starts [git fetch] exactly once and
    the mirroring stages never do. *)
Theorem one_fetch_after_branch fm r env h :
  let pre := events (branchStage r) env h in
  let mid := events (fetch r) env (h ++ pre)%list in
  let post := events (mirrorStage fm r) env (h ++ pre ++ mid)%list in
  events (syncRepo fm r) env h = (pre ++ mid ++ post)%list /\
  outcome (branchStage r) env h = Returned tt /\
  count (startsGit "fetch") mid = 1 /\
  count (startsGit "fetch") post = 0.
Proof.
  cbv zeta. repeat split.
  - apply events_syncRepo.
  - apply outcome_branchStage.
  - apply count_fetch_fetch.
  - apply count_fetch_mirrorStage.
Qed.

(** ** The scenario of the specification, with mirroring *)

(** C5: for the descriptor named "a" with destination "git@bb:org/a" under a
    clean cache root, with mirroring enabled and a remotes directory that can
    be created, the loop body first adds events that neither register nor
    push, then creates cacheRoot/a/remotes, writes cacheRoot/a/remotes/bb
    with exactly the three lines of the registration, and next starts
    [git push --mirror --force bb] in cacheRoot/a. *)
Theorem scenario_registers_then_pushes_bb cacheRoot src env h :
  isCleanDir cacheRoot = true ->
  (forall h', env h' (EvMkdirAll (cacheRoot ++ "/a/remotes") 511) = None) ->
  exists pre ctx post,
    events (syncRepo true (newRepo cacheRoot (mapScenario src))) env h =
    (pre ++
     [EvMkdirAll (cacheRoot ++ "/a/remotes") 511;
      EvWriteFile (cacheRoot ++ "/a/remotes/bb")
        ("URL: git@bb:org/a" ++ LF ++
         "Push: +refs/heads/*:refs/heads/*" ++ LF ++
         "Push: +refs/tags/*:refs/tags/*" ++ LF) 511;
      EvWithTimeout ctx;
      EvPrintf ("pushing repo: a, root: " ++ cacheRoot ++ "/a");
      EvStart (setDir (exec_CommandContext ctx "git" ["push"; "--mirror"; "--force"; "bb"])
                 (cacheRoot ++ "/a"))] ++
     post)%list /\
    count mirrors pre = 0 /\
    ctxTimeout ctx = (30 * time_Second)%Z.
Proof.
  intros Hclean Hmk.
  set (r := newRepo cacheRoot (mapScenario src)).
  set (pre := (events (branchStage r) env h ++
               events (fetch r) env (h ++ events (branchStage r) env h))%list).
  assert (remoteResult (destination r) = Returned "bb") as Hremote by reflexivity.
  assert (addRemote r env (h ++ pre)%list =
          ([EvMkdirAll (cacheRoot ++ "/a/remotes") 511;
            EvWriteFile (cacheRoot ++ "/a/remotes/bb")
              ("URL: git@bb:org/a" ++ LF ++
               "Push: +refs/heads/*:refs/heads/*" ++ LF ++
               "Push: +refs/tags/*:refs/tags/*" ++ LF) 511],
           Returned tt)) as Hadd.
  { rewrite run_addRemote, Hremote. cbv zeta.
    unfold r. rewrite (scenario_remotes _ src Hclean), (scenario_remote_file _ src Hclean).
    now rewrite Hmk. }
  destruct (run_push_prefix r env
              ((h ++ pre) ++
               [EvMkdirAll (cacheRoot ++ "/a/remotes") 511;
                EvWriteFile (cacheRoot ++ "/a/remotes/bb")
                  ("URL: git@bb:org/a" ++ LF ++
                   "Push: +refs/heads/*:refs/heads/*" ++ LF ++
                   "Push: +refs/tags/*:refs/tags/*" ++ LF) 511])%list
              "bb" Hremote) as [rest Hpush].
  cbv zeta in Hpush.
  assert (name r = "a") as Hname by reflexivity.
  assert (root r = (cacheRoot ++ "/a")%string) as Hroot
    by apply (scenario_root _ src Hclean).
  rewrite Hname, Hroot in Hpush.
  exists pre. eexists. exists rest.
  split.
  { rewrite events_syncRepo, app_assoc. fold pre. f_equal.
    assert (events (addRemote r) env (h ++ pre)%list = fst (addRemote r env (h ++ pre)%list))
      as Hev by reflexivity.
    assert (outcome (addRemote r) env (h ++ pre)%list = snd (addRemote r env (h ++ pre)%list))
      as Hout by reflexivity.
    rewrite Hadd in Hev, Hout. cbn [fst snd] in Hev, Hout.
    unfold mirrorStage. rewrite events_bind, Hout, Hev, Hpush. reflexivity. }
  split; [apply count_mirrors_before_mirrorStage | reflexivity].
Qed.

(** The theorem [scenario_registers_then_pushes_bb] at a concrete input. *)
Lemma scenario_registers_then_pushes_bb_witness :
  exists pre ctx post,
    events (syncRepo true (newRepo "/cache" (mapScenario "ssh://src/a"))) envEmptyCache [] =
    (pre ++
     [EvMkdirAll "/cache/a/remotes" 511;
      EvWriteFile "/cache/a/remotes/bb"
        ("URL: git@bb:org/a" ++ LF ++
         "Push: +refs/heads/*:refs/heads/*" ++ LF ++
         "Push: +refs/tags/*:refs/tags/*" ++ LF) 511;
      EvWithTimeout ctx;
      EvPrintf "pushing repo: a, root: /cache/a";
      EvStart (setDir (exec_CommandContext ctx "git" ["push"; "--mirror"; "--force"; "bb"])
                 "/cache/a")] ++
     post)%list /\
    count mirrors pre = 0 /\
    ctxTimeout ctx = (30 * time_Second)%Z.
Proof.
  apply (scenario_registers_then_pushes_bb "/cache" "ssh://src/a" envEmptyCache []).
  - reflexivity.
  - reflexivity.
Defined.

(** ** Mirroring disabled *)

(** C6: with mirroring disabled, no event of the loop body creates the
    remotes directory, writes a remote-registration file or runs a push, and
    every event touches only the local mirror: its marker file, its directory
    tree, a clone into it or a fetch inside it. *)
Theorem no_mirroring_when_disabled r env h :
  Forall (fun ev => mirrors ev = false /\ touchesOnlyMirror r ev)
    (events (syncRepo false r) env h).
Proof.
  assert (forall evs, Forall (touchesOnlyMirror r) evs ->
                      Forall (fun ev => mirrors ev = false /\ touchesOnlyMirror r ev) evs)
    as Hboth.
  { intros evs. apply Forall_impl. intros ev H. split; [|exact H].
    now apply (touchesOnlyMirror_not_mirrors r). }
  apply Hboth. rewrite events_syncRepo.
  apply Forall_app; split; [|apply Forall_app; split].
  - apply emits_branchStage.
  - eapply Forall_impl; [|apply emits_fetch]. intros ev H. now do 3 right.
  - constructor.
Qed.

(** ** Errors *)

(** C7 as stated fails: on a file system that refuses the deletion of the
    local root and the write of the registration file, both calls are made and
    fail, and the log of the loop body has four lines, none about either
    failure; when the remotes directory cannot be created either, that call
    is made and fails, and the log has the same four lines. *)
Lemma filesystem_failures_not_logged :
  In (EvRemoveAll "/cache/a") (events (syncRepo true repoA) envReadOnly []) /\
  (forall h, envReadOnly h (EvRemoveAll "/cache/a") = Some "permission denied") /\
  In (EvWriteFile "/cache/a/remotes/bb"
        ("URL: git@bb:org/a" ++ LF ++
         "Push: +refs/heads/*:refs/heads/*" ++ LF ++
         "Push: +refs/tags/*:refs/tags/*" ++ LF) 511)
     (events (syncRepo true repoA) envReadOnly []) /\
  (forall h path data perm,
      envReadOnly h (EvWriteFile path data perm) = Some "permission denied") /\
  logLines (events (syncRepo true repoA) envReadOnly []) =
  ["can't resuse repo: /cache/a";
   "cloning repo: a, root: /cache/a";
   "fetching repo: a, root: /cache/a";
   "pushing repo: a, root: /cache/a"] /\
  In (EvMkdirAll "/cache/a/remotes" 511) (events (syncRepo true repoA) envNoWrites []) /\
  (forall h, envNoWrites h (EvMkdirAll "/cache/a/remotes" 511) = Some "permission denied") /\
  logLines (events (syncRepo true repoA) envNoWrites []) =
  ["can't resuse repo: /cache/a";
   "cloning repo: a, root: /cache/a";
   "fetching repo: a, root: /cache/a";
   "pushing repo: a, root: /cache/a"].
Proof.
  repeat split.
  - vm_compute. auto.
  - vm_compute. auto 20.
  - vm_compute. auto 20.
Qed.

(** C7, amended: every error of starting or waiting for a child process
    (a start failure, a non-zero exit, a kill at the timeout) is followed by a
    log line that names the stage and the repository; no error of the
    environment ends the loop body, which returns whenever the remote name can
    be computed; whatever failed before, an absent marker is followed by the
    deletion and the clone, the fetch is started, and with mirroring the
    remotes directory is created and the push is started; and the worker goes
    on with the descriptors after this one.  Failures of the file system are
    not logged: every line the loop body logs is a line about its progress or
    the line of an error of a child process; [addRemote] logs nothing,
    whatever creating the remotes directory and writing the registration file
    return; and the loop body runs alike, event for event, in two
    environments that differ only in what the deletion of the local root and
    the write of the registration file return. *)
Theorem child_errors_logged_nothing_fatal fm r env h :
  let evs := events (syncRepo fm r) env h in
  (forall pre ev post e line,
      evs = (pre ++ ev :: post)%list ->
      env (h ++ pre)%list ev = Some e ->
      errorLine r ev e = Some line ->
      In (EvPrintf line) post) /\
  (canMirror fm r -> outcome (syncRepo fm r) env h = Returned tt) /\
  (forall e, env h (EvStat (markerFile r)) = Some e ->
             In (EvRemoveAll (root r)) evs /\
             exists ctx, In (EvStart (exec_CommandContext ctx "git" (cloneArgs r))) evs) /\
  (exists ctx,
      In (EvStart (setDir (exec_CommandContext ctx "git" fetchArgs) (root r))) evs) /\
  (fm = true -> In (EvMkdirAll (filepath.Join [root r; "remotes"]) 511) evs) /\
  (fm = true -> forall remote,
      remoteResult (destination r) = Returned remote ->
      exists ctx,
        In (EvStart (setDir (exec_CommandContext ctx "git" (pushArgs remote)) (root r)))
           evs) /\
  (forall rest,
      canMirror fm r ->
      events (worker fm (r :: rest)) env h =
      (evs ++ events (worker fm rest) env (h ++ evs))%list) /\
  Forall (fun line => stageLine r line \/ childErrorLine r line) (logLines evs) /\
  (forall h', logLines (events (addRemote r) env h') = []) /\
  (forall env', sameButDiscarded env env' -> syncRepo fm r env' h = syncRepo fm r env h).
Proof.
  cbv zeta. repeat apply conj;
    [ | | | | | | | apply lines_syncRepo | apply lines_addRemote
    | intros env' Hsame; now apply (same_syncRepo env env' Hsame) ].
  - apply errorsLogged_split, errorsLogged_syncRepo.
  - apply outcome_syncRepo_canMirror.
  - intros e Hstat.
    destruct (syncRepo_absent_marker fm r env h e Hstat) as [_ [rest ->]].
    cbv zeta. split; [cbn; auto|]. eexists. cbn. auto 10.
  - eexists. rewrite events_syncRepo. apply in_or_app. right.
    apply in_or_app. left. apply fetch_attempted.
  - intros ->. rewrite events_syncRepo, !in_app_iff. do 2 right.
    cbn [mirrorStage]. rewrite events_bind. apply in_or_app. left.
    apply mkdir_attempted.
  - intros -> remote Hremote.
    destruct (push_attempted r env
                (h ++ events (branchStage r) env h ++
                 events (fetch r) env (h ++ events (branchStage r) env h))%list
                remote Hremote) as [ctx Hin].
    exists ctx. rewrite events_syncRepo, !in_app_iff. now do 2 right.
  - intros rest. apply events_worker_cons.
Qed.

(** ** A destination without an at sign *)

(** C8: for a destination without '@', [push] panics with index 1 out of
    range of a slice of length 1, having started no child process;
    [addRemote] panics the same way once the remotes directory was created
    (it returns before the split when [os.MkdirAll] fails); so the mirroring
    stages, and the loop body with mirroring enabled, end in that panic in
    every environment, and no registration file is written. *)
Theorem mirroring_panics_without_at r env h :
  ContainsByte (destination r) "@" = false ->
  outcome (push r) env h = Panicked (IndexOutOfRange 1 1) /\
  (env h (EvMkdirAll (filepath.Join [root r; "remotes"]) 511) = None ->
   outcome (addRemote r) env h = Panicked (IndexOutOfRange 1 1)) /\
  outcome (mirrorStage true r) env h = Panicked (IndexOutOfRange 1 1) /\
  outcome (syncRepo true r) env h = Panicked (IndexOutOfRange 1 1) /\
  Forall (fun ev => match ev with
                    | EvWriteFile _ _ _ => False
                    | _ => startsGit "push" ev = false
                    end)
    (events (syncRepo true r) env h).
Proof.
  intros Hat. repeat split.
  - unfold outcome. now rewrite push_without_at.
  - intros Hmk. unfold outcome. rewrite addRemote_without_at by assumption.
    cbn. now rewrite Hmk.
  - now apply mirrorStage_without_at.
  - rewrite outcome_syncRepo. now apply mirrorStage_without_at.
  - rewrite events_syncRepo.
    apply Forall_app; split; [|apply Forall_app; split].
    + eapply Forall_impl; [|apply emits_branchStage].
      intros ev [-> | [-> | [H | H]]]; try reflexivity;
        (destruct ev; try contradiction;
         (eapply runsGit_verb; [exact H | discriminate])).
    + eapply Forall_impl; [|apply emits_fetch].
      intros ev H. destruct ev; try contradiction;
        (eapply runsGit_verb; [exact H | discriminate]).
    + unfold mirrorStage. rewrite events_bind.
      unfold events, outcome. rewrite addRemote_without_at by assumption.
      cbn [fst snd]. constructor; [reflexivity|].
      destruct (env _ (EvMkdirAll _ _)); [|constructor].
      rewrite push_without_at by assumption. repeat constructor.
Qed.

(** The theorem [mirroring_panics_without_at] at a concrete input. *)
Lemma mirroring_panics_without_at_witness :
  outcome (push repoPlain) envAllGood [] = Panicked (IndexOutOfRange 1 1) /\
  (envAllGood [] (EvMkdirAll (filepath.Join [root repoPlain; "remotes"]) 511) = None ->
   outcome (addRemote repoPlain) envAllGood [] = Panicked (IndexOutOfRange 1 1)) /\
  outcome (mirrorStage true repoPlain) envAllGood [] = Panicked (IndexOutOfRange 1 1) /\
  outcome (syncRepo true repoPlain) envAllGood [] = Panicked (IndexOutOfRange 1 1) /\
  Forall (fun ev => match ev with
                    | EvWriteFile _ _ _ => False
                    | _ => startsGit "push" ev = false
                    end)
    (events (syncRepo true repoPlain) envAllGood []).
Proof.
  apply (mirroring_panics_without_at repoPlain envAllGood []). reflexivity.
Defined.

(** ** Local roots *)

(** C9 as stated fails: two descriptors of one run with the distinct names
    "a" and "a/" get the same local root, since [filepath.Join] cleans the
    joined path. *)
Lemma distinct_names_share_root :
  In (newRepo "/cache" mapA) (buildRepos "/cache" [mapA; mapASlash]) /\
  In (newRepo "/cache" mapASlash) (buildRepos "/cache" [mapA; mapASlash]) /\
  name (newRepo "/cache" mapA) <> name (newRepo "/cache" mapASlash) /\
  root (newRepo "/cache" mapA) = root (newRepo "/cache" mapASlash).
Proof.
  repeat split.
  - left. reflexivity.
  - right. left. reflexivity.
  - discriminate.
Qed.

(** C9, amended: every descriptor built from the configuration has the path
    join of the cache root and its name as local root, and two descriptors of
    one run whose names are distinct single path elements (not empty, not "."
    or "..", without a separator) have distinct local roots. *)
Theorem localRoot_joined_and_distinct cacheDir mappings :
  (forall r, In r (buildRepos cacheDir mappings) ->
             root r = filepath.Join [cacheDir; name r]) /\
  (forall r1 r2,
     In r1 (buildRepos cacheDir mappings) ->
     In r2 (buildRepos cacheDir mappings) ->
     isElem (name r1) = true -> isElem (name r2) = true ->
     name r1 <> name r2 -> root r1 <> root r2).
Proof.
  rewrite buildRepos_map.
  assert (forall r, In r (map (newRepo cacheDir) mappings) ->
                    root r = filepath.Join [cacheDir; name r]) as Hroot.
  { intros r Hr. apply in_map_iff in Hr as (m & <- & _). reflexivity. }
  split; [exact Hroot|].
  intros r1 r2 H1 H2 He1 He2 Hneq Heq.
  rewrite (Hroot _ H1), (Hroot _ H2) in Heq.
  rewrite (Join_elem _ He1), (Join_elem _ He2) in Heq.
  now apply append_inv_head in Heq.
Qed.

(** ** Timeouts and their contexts *)

(** C10: each of [clone], [fetch] and [push] first makes a context whose
    timeout is 30 seconds, starts and waits for its child process only under
    that context, and ends by cancelling it, on every path: success, a child
    that fails, a start that fails (the early return of [fetch]) and the panic
    of [push]; and the whole loop body is made of such blocks and of events
    that involve no child process. *)
Theorem child_processes_scoped_by_30s_context fm r env h :
  scoped (events (clone r) env h) /\
  scoped (events (fetch r) env h) /\
  scoped (events (push r) env h) /\
  wellScoped (events (syncRepo fm r) env h) /\
  (30 * time_Second)%Z = 30000000000%Z.
Proof.
  repeat split.
  - apply scoped_clone.
  - apply scoped_fetch.
  - apply scoped_push.
  - apply wellScoped_syncRepo.
Qed.

(** * Further properties of the program *)

(** ** What [fetch] returns, and what [clone] and [push] do after a failed start *)

(** X1: [fetch] returns nil exactly when its child was started and the wait
    for it returned nil; when the start fails it returns that error without
    waiting for anything. *)
Theorem fetch_result r env h :
  let ctx := {| ctxSerial := List.length h; ctxTimeout := (30 * time_Second)%Z |} in
  let cmd := setDir (exec_CommandContext ctx "git" fetchArgs) (root r) in
  let intro := [EvWithTimeout ctx;
                EvPrintf ("fetching repo: " ++ name r ++ ", root: " ++ root r)] in
  (outcome (fetch r) env h = Returned None <->
   env (h ++ intro)%list (EvStart cmd) = None /\
   env (h ++ intro ++ [EvStart cmd])%list (EvWait (setProcess cmd true)) = None) /\
  (forall e, env (h ++ intro)%list (EvStart cmd) = Some e ->
             outcome (fetch r) env h = Returned (Some e) /\
             count isWait (events (fetch r) env h) = 0) /\
  (forall e, env (h ++ intro)%list (EvStart cmd) = None ->
             env (h ++ intro ++ [EvStart cmd])%list (EvWait (setProcess cmd true)) = Some e ->
             outcome (fetch r) env h = Returned (Some e)).
Proof.
  cbv zeta. unfold outcome, events. rewrite run_fetch. cbv zeta.
  destruct (env _ (EvStart _)) as [e1|] eqn:Hstart.
  - repeat split; try discriminate.
    + intros [H _]. discriminate.
    + now injection H as ->.
  - destruct (env _ (EvWait _)) as [e2|] eqn:Hwait.
    + repeat split; try discriminate.
      * intros [_ H]. discriminate.
      * intros e _ H. now injection H as ->.
    + repeat split; discriminate.
Qed.

(** X2: when the child of [clone] cannot be started, [clone] logs the start
    error, still calls [cmd.Wait] on the command that was never started, logs
    the error of that call ("exec: not started") as a wait error, waits for
    no child, and returns. *)
Theorem clone_waits_after_failed_start r env h e :
  env (h ++ [EvWithTimeout {| ctxSerial := List.length h;
                              ctxTimeout := (30 * time_Second)%Z |};
             EvPrintf ("cloning repo: " ++ name r ++ ", root: " ++ root r)])%list
      (EvStart (exec_CommandContext
                  {| ctxSerial := List.length h; ctxTimeout := (30 * time_Second)%Z |}
                  "git" (cloneArgs r))) = Some e ->
  logLines (events (clone r) env h) =
  ["cloning repo: " ++ name r ++ ", root: " ++ root r;
   "error starting git clone on repo: " ++ name r ++ ", err: " ++ e;
   "error waiting git clone on repo: " ++ name r ++ ", err: exec: not started"] /\
  count isWait (events (clone r) env h) = 0 /\
  outcome (clone r) env h = Returned tt.
Proof.
  intros Hstart. unfold outcome, events. rewrite run_clone. cbv zeta.
  rewrite Hstart. repeat split.
Qed.

(** The theorem [clone_waits_after_failed_start] at a concrete input. *)
Lemma clone_waits_after_failed_start_witness :
  logLines (events (clone repoA) envNoGit []) =
  ["cloning repo: " ++ name repoA ++ ", root: " ++ root repoA;
   "error starting git clone on repo: " ++ name repoA ++
   ", err: " ++ "executable file not found in $PATH";
   "error waiting git clone on repo: " ++ name repoA ++ ", err: exec: not started"] /\
  count isWait (events (clone repoA) envNoGit []) = 0 /\
  outcome (clone repoA) envNoGit [] = Returned tt.
Proof.
  apply (clone_waits_after_failed_start repoA envNoGit []
           "executable file not found in $PATH").
  reflexivity.
Defined.

(** X3: the same holds of [push] once the remote name is computed: after a
    failed start it logs the start error and then "exec: not started" as a wait
    error, waits for no child, and returns. *)
Theorem push_waits_after_failed_start r env h remote e :
  remoteResult (destination r) = Returned remote ->
  env (h ++ [EvWithTimeout {| ctxSerial := List.length h;
                              ctxTimeout := (30 * time_Second)%Z |};
             EvPrintf ("pushing repo: " ++ name r ++ ", root: " ++ root r)])%list
      (EvStart (setDir (exec_CommandContext
                          {| ctxSerial := List.length h;
                             ctxTimeout := (30 * time_Second)%Z |}
                          "git" (pushArgs remote)) (root r))) = Some e ->
  logLines (events (push r) env h) =
  ["pushing repo: " ++ name r ++ ", root: " ++ root r;
   "error starting git push on repo: " ++ name r ++ ", err: " ++ e;
   "error waiting git push on repo: " ++ name r ++ ", err: exec: not started"] /\
  count isWait (events (push r) env h) = 0 /\
  outcome (push r) env h = Returned tt.
Proof.
  intros Hremote Hstart. unfold outcome, events. rewrite run_push, Hremote. cbv zeta.
  rewrite Hstart. repeat split.
Qed.

(** The theorem [push_waits_after_failed_start] at a concrete input. *)
Lemma push_waits_after_failed_start_witness :
  logLines (events (push repoA) envNoGit []) =
  ["pushing repo: " ++ name repoA ++ ", root: " ++ root repoA;
   "error starting git push on repo: " ++ name repoA ++
   ", err: " ++ "executable file not found in $PATH";
   "error waiting git push on repo: " ++ name repoA ++ ", err: exec: not started"] /\
  count isWait (events (push repoA) envNoGit []) = 0 /\
  outcome (push repoA) envNoGit [] = Returned tt.
Proof.
  apply (push_waits_after_failed_start repoA envNoGit [] "bb"
           "executable file not found in $PATH"); reflexivity.
Defined.

(** ** The remote name *)

Lemma pieces_present s c :
  ContainsByte s c = true -> exists w w' ws, pieces s c = (w, w' :: ws).
Proof.
  induction s as [|x s IH]; cbn; [discriminate|].
  destruct (pieces s c) as [w ws] eqn:Hp.
  destruct (Ascii.eqb x c); cbn.
  - intros _. now exists EmptyString, w, ws.
  - intros H. destruct (IH H) as (w0 & w1 & ws1 & [= -> ->]).
    now exists (String x w0), w1, ws1.
Qed.

Lemma pieces_first_clean s c x :
  ContainsByte s x = false -> ContainsByte (fst (pieces s c)) x = false.
Proof.
  induction s as [|y s IH]; cbn; [reflexivity|].
  intros H. apply orb_false_elim in H as [Hy Hs].
  destruct (pieces s c) as [w ws]. cbn in IH.
  destruct (Ascii.eqb y c); cbn; [reflexivity|].
  now rewrite Hy, IH.
Qed.

Lemma pieces_no_sep s c :
  ContainsByte (fst (pieces s c)) c = false /\
  Forall (fun w => ContainsByte w c = false) (snd (pieces s c)).
Proof.
  induction s as [|y s IH]; cbn; [split; [reflexivity | constructor]|].
  destruct (pieces s c) as [w ws]. cbn in IH. destruct IH as [IH1 IH2].
  destruct (Ascii.eqb y c) eqn:Hy; cbn.
  - split; [reflexivity | now constructor].
  - split; [now rewrite Hy | assumption].
Qed.

Lemma pieces_app_first a b c :
  ContainsByte a c = false ->
  fst (pieces (a ++ String c b) c) = a.
Proof.
  induction a as [|y a IH]; cbn.
  - intros _. rewrite Ascii.eqb_refl. now destruct (pieces b c).
  - intros H. apply orb_false_elim in H as [Hy Ha].
    specialize (IH Ha). destruct (pieces (a ++ String c b) c) as [w ws].
    cbn in IH. rewrite Hy. cbn. now rewrite IH.
Qed.

Lemma pieces_app_clean a b c :
  ContainsByte a c = false ->
  pieces (a ++ b) c = ((a ++ fst (pieces b c))%string, snd (pieces b c)).
Proof.
  induction a as [|y a IH]; cbn.
  - intros _. now destruct (pieces b c).
  - intros H. apply orb_false_elim in H as [Hy Ha].
    rewrite (IH Ha), Hy. reflexivity.
Qed.

(** X4: the computation of the remote name, shared by [addRemote] and
    [push], adds no event, panics with index 1 out of range of length 1 exactly
    when the destination has no '@', and returns a name exactly when it has
    one. *)
Theorem remoteName_panics_iff_no_at d env h :
  events (remoteName d) env h = [] /\
  (ContainsByte d "@" = false <->
   outcome (remoteName d) env h = Panicked (IndexOutOfRange 1 1)) /\
  (ContainsByte d "@" = true <->
   exists remote, outcome (remoteName d) env h = Returned remote).
Proof.
  unfold events, outcome. rewrite run_remoteName. cbn [fst snd].
  split; [reflexivity|].
  destruct (ContainsByte d "@") eqn:Hat.
  - destruct (pieces_present d "@" Hat) as (w & w' & ws & Hp).
    unfold remoteResult, Split. rewrite Hp. cbn.
    split; split; try discriminate; eauto.
  - unfold remoteResult. rewrite (Split_absent _ _ Hat). cbn.
    split; split; try discriminate; trivial.
    intros [remote H]. discriminate.
Qed.

(** X5: for a destination of the form user@host:rest, where the user has no
    '@' and the host has neither '@' nor ':', the remote name is the host,
    whatever follows the colon. *)
Theorem remoteName_is_host user host rest env h :
  ContainsByte user "@" = false ->
  ContainsByte host "@" = false ->
  ContainsByte host ":" = false ->
  remoteName (user ++ "@" ++ host ++ ":" ++ rest) env h = ([], Returned host).
Proof.
  intros Hu Hh1 Hh2. rewrite run_remoteName. f_equal.
  unfold remoteResult.
  change (user ++ "@" ++ host ++ ":" ++ rest)%string
    with (user ++ String "@" (host ++ ":" ++ rest))%string.
  rewrite Split_app_sep, (Split_absent _ _ Hu). cbn [app nth_error].
  unfold Split. rewrite (pieces_app_clean host _ "@" Hh1). cbn [nth_error].
  change (":" ++ rest)%string with (String ":" rest).
  f_equal.
  destruct (pieces (String ":" rest) "@") as [w ws] eqn:Hp. cbn [fst].
  cbn in Hp. destruct (pieces rest "@") as [w0 ws0]. injection Hp as <- <-.
  change (host ++ String ":" w0)%string with (host ++ String ":" w0)%string.
  now apply pieces_app_first.
Qed.

(** The theorem [remoteName_is_host] at a concrete input. *)
Lemma remoteName_is_host_witness :
  remoteName ("git" ++ "@" ++ "bb" ++ ":" ++ "org/a") envAllGood [] = ([], Returned "bb").
Proof.
  apply (remoteName_is_host "git" "bb" "org/a" envAllGood []); reflexivity.
Defined.

(** X6: a remote name that is computed contains neither '@' nor ':'. *)
Theorem remoteName_has_no_separator d env h remote :
  outcome (remoteName d) env h = Returned remote ->
  ContainsByte remote "@" = false /\ ContainsByte remote ":" = false.
Proof.
  unfold outcome. rewrite run_remoteName. cbn [snd]. unfold remoteResult.
  destruct (nth_error (Split d "@") 1) as [at1|] eqn:Hnth; [|discriminate].
  intros [= <-]. split.
  - apply pieces_first_clean.
    unfold Split in Hnth. destruct (pieces_no_sep d "@") as [_ Hall].
    destruct (pieces d "@") as [w ws]. cbn in Hnth, Hall.
    destruct ws as [|w' ws']; [discriminate|]. injection Hnth as ->.
    now inversion Hall.
  - apply pieces_no_sep.
Qed.

(** The theorem [remoteName_has_no_separator] at a concrete input. *)
Lemma remoteName_has_no_separator_witness :
  ContainsByte "bb" "@" = false /\ ContainsByte "bb" ":" = false.
Proof.
  apply (remoteName_has_no_separator "git@bb:org/a@x:y" envAllGood [] "bb").
  reflexivity.
Defined.

(** ** How often the loop body fetches, clones and deletes *)

Lemma count_emits {A} f (P : Event -> Prop) (m : M A) env h :
  emits P m -> (forall ev, P ev -> f ev = false) -> count f (events m env h) = 0.
Proof.
  intros Hm Hf. apply count_none. eapply Forall_impl; [exact Hf | apply Hm].
Qed.

Lemma runsGit_not_fs args dir ev :
  runsGit args dir ev -> isRemoveAll ev = false /\ isStat ev = false.
Proof. destruct ev; cbn; intuition. Qed.

Lemma registersOrPushes_not_fs r ev :
  registersOrPushes r ev -> isRemoveAll ev = false /\ isStat ev = false.
Proof.
  intros [-> | [(remote & data & ->) | (remote & H)]]; try (split; reflexivity).
  now apply (runsGit_not_fs _ _ _ H).
Qed.

Lemma count_clone_clone r env h : count (startsGit "clone") (events (clone r) env h) = 1.
Proof.
  unfold events. rewrite run_clone.
  destruct (env _ (EvStart _)); [reflexivity|].
  destruct (env _ (EvWait _)); reflexivity.
Qed.

(** X7: the loop body tests the marker file once; when the marker exists it
    starts [git fetch] twice and neither deletes nor clones; when it is absent
    it deletes once, clones once and fetches once; whatever the calls
    return. *)
Theorem stage_counts fm r env h :
  let evs := events (syncRepo fm r) env h in
  count isStat evs = 1 /\
  match env h (EvStat (markerFile r)) with
  | None =>
      count (startsGit "fetch") evs = 2 /\
      count (startsGit "clone") evs = 0 /\
      count isRemoveAll evs = 0
  | Some _ =>
      count (startsGit "fetch") evs = 1 /\
      count (startsGit "clone") evs = 1 /\
      count isRemoveAll evs = 1
  end.
Proof.
  cbv zeta. rewrite events_syncRepo, !count_app.
  assert (forall h', count (startsGit "clone") (events (fetch r) env h') = 0) as Hfc.
  { intros h'. apply (count_emits _ _ _ _ _ (emits_fetch r)).
    intros ev H. eapply runsGit_verb; [exact H | discriminate]. }
  assert (forall h', count isRemoveAll (events (fetch r) env h') = 0) as Hfr.
  { intros h'. apply (count_emits _ _ _ _ _ (emits_fetch r)).
    intros ev H. now apply (runsGit_not_fs _ _ _ H). }
  assert (forall h', count isStat (events (fetch r) env h') = 0) as Hfs.
  { intros h'. apply (count_emits _ _ _ _ _ (emits_fetch r)).
    intros ev H. now apply (runsGit_not_fs _ _ _ H). }
  assert (forall h', count (startsGit "fetch") (events (clone r) env h') = 0) as Hcf.
  { intros h'. apply (count_emits _ _ _ _ _ (emits_clone r)).
    intros ev H. eapply runsGit_verb; [exact H | discriminate]. }
  assert (forall h', count isRemoveAll (events (clone r) env h') = 0) as Hcr.
  { intros h'. apply (count_emits _ _ _ _ _ (emits_clone r)).
    intros ev H. now apply (runsGit_not_fs _ _ _ H). }
  assert (forall h', count isStat (events (clone r) env h') = 0) as Hcs.
  { intros h'. apply (count_emits _ _ _ _ _ (emits_clone r)).
    intros ev H. now apply (runsGit_not_fs _ _ _ H). }
  assert (forall h', count (startsGit "clone") (events (mirrorStage fm r) env h') = 0) as Hmc.
  { intros h'. apply (count_emits _ _ _ _ _ (emits_mirrorStage fm r)).
    intros ev H. eapply registersOrPushes_not_verb; [exact H | discriminate]. }
  assert (forall h', count isRemoveAll (events (mirrorStage fm r) env h') = 0) as Hmr.
  { intros h'. apply (count_emits _ _ _ _ _ (emits_mirrorStage fm r)).
    intros ev H. now apply (registersOrPushes_not_fs r). }
  assert (forall h', count isStat (events (mirrorStage fm r) env h') = 0) as Hms.
  { intros h'. apply (count_emits _ _ _ _ _ (emits_mirrorStage fm r)).
    intros ev H. now apply (registersOrPushes_not_fs r). }
  rewrite !count_fetch_fetch, !count_fetch_mirrorStage, Hfc, Hfr, Hfs, Hmc, Hmr, Hms.
  destruct (env h (EvStat (markerFile r))) as [e|] eqn:Hstat.
  - rewrite (events_branchStage_absent _ _ _ _ Hstat), !count_app.
    rewrite Hcf, Hcr, Hcs, count_clone_clone. repeat split.
  - rewrite (events_branchStage_present _ _ _ Hstat), !count_app.
    rewrite count_fetch_fetch, Hfc, Hfr, Hfs. repeat split.
Qed.

Lemma count_isStart_fetch r env h : count isStart (events (fetch r) env h) = 1.
Proof.
  unfold events. rewrite run_fetch.
  destruct (env _ (EvStart _)); [reflexivity|].
  destruct (env _ (EvWait _)); reflexivity.
Qed.

Lemma count_isStart_clone r env h : count isStart (events (clone r) env h) = 1.
Proof.
  unfold events. rewrite run_clone.
  destruct (env _ (EvStart _)); [reflexivity|].
  destruct (env _ (EvWait _)); reflexivity.
Qed.

Lemma count_isStart_push r env h : count isStart (events (push r) env h) <= 1.
Proof.
  unfold events. rewrite run_push. cbv zeta.
  destruct (remoteResult (destination r)); [|cbn; lia].
  destruct (env _ (EvStart _)); [cbn; lia|].
  destruct (env _ (EvWait _)); cbn; lia.
Qed.

Lemma count_isStart_addRemote r env h : count isStart (events (addRemote r) env h) = 0.
Proof.
  unfold events. rewrite run_addRemote. cbv zeta.
  destruct (env h _); [|destruct (remoteResult (destination r))]; reflexivity.
Qed.

(** X8: the loop body starts two child processes without mirroring and at
    most three with it, whatever the environment answers. *)
Theorem at_most_three_children fm r env h :
  2 <= count isStart (events (syncRepo fm r) env h) <= 3 /\
  count isStart (events (syncRepo false r) env h) = 2.
Proof.
  assert (forall h', count isStart (events (branchStage r) env h') = 1) as Hb.
  { intros h'. destruct (env h' (EvStat (markerFile r))) as [e|] eqn:Hstat.
    - rewrite (events_branchStage_absent _ _ _ _ Hstat), count_app, count_isStart_clone.
      reflexivity.
    - rewrite (events_branchStage_present _ _ _ Hstat), count_app, count_isStart_fetch.
      reflexivity. }
  assert (forall m h', count isStart (events (mirrorStage m r) env h') <= 1) as Hm.
  { intros [|] h'; cbn [mirrorStage]; [|cbn; lia].
    rewrite events_bind, count_app, count_isStart_addRemote.
    destruct (outcome (addRemote r) env h'); [apply count_isStart_push | cbn; lia]. }
  rewrite !events_syncRepo, !count_app, !Hb, !count_isStart_fetch.
  split; [|reflexivity].
  match goal with |- context [count isStart (events (mirrorStage fm r) env ?x)] =>
    pose proof (Hm fm x) end.
  lia.
Qed.

(** ** The worker's loop over the descriptors it receives *)

Lemma filter_none f (evs : list Event) :
  Forall (fun ev => f ev = false) evs -> filter f evs = [].
Proof.
  induction 1 as [|ev evs Hev _ IH]; cbn; [reflexivity|]. now rewrite Hev.
Qed.

Lemma filter_emits {A} f (P : Event -> Prop) (m : M A) env h :
  emits P m -> (forall ev, P ev -> f ev = false) -> filter f (events m env h) = [].
Proof.
  intros Hm Hf. apply filter_none. eapply Forall_impl; [exact Hf | apply Hm].
Qed.

Lemma filter_isStat_syncRepo fm r env h :
  filter isStat (events (syncRepo fm r) env h) = [EvStat (markerFile r)].
Proof.
  assert (forall h', filter isStat (events (fetch r) env h') = []) as Hf.
  { intros h'. apply (filter_emits _ _ _ _ _ (emits_fetch r)).
    intros ev H. now apply (runsGit_not_fs _ _ _ H). }
  assert (forall h', filter isStat (events (clone r) env h') = []) as Hc.
  { intros h'. apply (filter_emits _ _ _ _ _ (emits_clone r)).
    intros ev H. now apply (runsGit_not_fs _ _ _ H). }
  assert (forall h', filter isStat (events (mirrorStage fm r) env h') = []) as Hm.
  { intros h'. apply (filter_emits _ _ _ _ _ (emits_mirrorStage fm r)).
    intros ev H. now apply (registersOrPushes_not_fs r). }
  rewrite events_syncRepo, !filter_app, Hf, Hm, !app_nil_r.
  destruct (env h (EvStat (markerFile r))) as [e|] eqn:Hstat.
  - rewrite (events_branchStage_absent _ _ _ _ Hstat), filter_app, Hc. reflexivity.
  - rewrite (events_branchStage_present _ _ _ Hstat), filter_app, Hf. reflexivity.
Qed.

(** X9: when no descriptor makes the mirroring stages panic (mirroring is
    off, or every destination has an '@'), the worker's loop returns, and it
    runs the loop body once for every descriptor it received, in the order
    received, whatever fails on the way: the marker files it tests are those
    of the descriptors, in order. *)
Theorem worker_runs_every_descriptor fm rs env h :
  Forall (canMirror fm) rs ->
  outcome (worker fm rs) env h = Returned tt /\
  filter isStat (events (worker fm rs) env h) = map (fun r => EvStat (markerFile r)) rs.
Proof.
  intros Hall. revert h. induction Hall as [|r rs Hr _ IH]; intros h.
  - split; reflexivity.
  - cbn [worker map]. rewrite outcome_bind, events_bind.
    rewrite (outcome_syncRepo_canMirror fm r env h Hr).
    destruct (IH (h ++ events (syncRepo fm r) env h)%list) as [IHo IHe].
    split; [exact IHo|].
    now rewrite filter_app, filter_isStat_syncRepo, IHe.
Qed.

(** The theorem [worker_runs_every_descriptor] at a concrete input. *)
Lemma worker_runs_every_descriptor_witness :
  outcome (worker false [repoA; repoPlain]) envFetchFails [] = Returned tt /\
  filter isStat (events (worker false [repoA; repoPlain]) envFetchFails []) =
  map (fun r => EvStat (markerFile r)) [repoA; repoPlain].
Proof.
  apply (worker_runs_every_descriptor false [repoA; repoPlain] envFetchFails []).
  repeat constructor.
Defined.

(** X10: with mirroring enabled, a descriptor whose destination has no '@'
    ends the worker's loop in the panic: the events of the worker are those
    of that descriptor alone, and no descriptor received after it is
    touched. *)
Theorem worker_stops_at_panic r rest env h :
  ContainsByte (destination r) "@" = false ->
  outcome (worker true (r :: rest)) env h = Panicked (IndexOutOfRange 1 1) /\
  events (worker true (r :: rest)) env h = events (syncRepo true r) env h.
Proof.
  intros Hat.
  assert (outcome (syncRepo true r) env h = Panicked (IndexOutOfRange 1 1)) as Hout
    by (rewrite outcome_syncRepo; now apply mirrorStage_without_at).
  cbn [worker]. rewrite outcome_bind, events_bind, Hout.
  split; [reflexivity | apply app_nil_r].
Qed.

(** The theorem [worker_stops_at_panic] at a concrete input. *)
Lemma worker_stops_at_panic_witness :
  outcome (worker true [repoPlain; repoA]) envAllGood [] = Panicked (IndexOutOfRange 1 1) /\
  events (worker true [repoPlain; repoA]) envAllGood [] =
  events (syncRepo true repoPlain) envAllGood [].
Proof.
  apply (worker_stops_at_panic repoPlain [repoA] envAllGood []). reflexivity.
Defined.

(** ** Where the local roots lie *)

Lemma Clean_dropped_last p n :
  p <> "" -> (n = "" \/ n = ".") ->
  filepath.Clean (p ++ "/" ++ n) = filepath.Clean p.
Proof.
  intros Hp Hn. unfold filepath.Clean.
  apply String.eqb_neq in Hp as Hp'. rewrite Hp'.
  assert ((p ++ "/" ++ n =? "")%string = false) as ->.
  { destruct p; [congruence | reflexivity]. }
  rewrite rooted_append by assumption.
  change ("/" ++ n)%string with (String filepath.Separator n).
  rewrite Split_app_sep.
  assert (Split n filepath.Separator = [n]) as -> by (destruct Hn as [-> | ->]; reflexivity).
  unfold filepath.cleanElems. rewrite fold_left_app. cbn [fold_left].
  assert (forall kept, filepath.cleanStep (filepath.rooted p) kept n = kept) as ->
    by (intros kept; destruct Hn as [-> | ->]; reflexivity).
  reflexivity.
Qed.

(** X11: a record whose name is empty (a missing key) or "." gets the
    cleaned cache directory itself as local root; when no marker file is found
    there, the loop body deletes the whole cache directory. *)
Theorem nameless_record_roots_at_cache cacheDir m fm env h e :
  cacheDir <> "" ->
  Name m = "" \/ Name m = "." ->
  env h (EvStat (markerFile (newRepo cacheDir m))) = Some e ->
  root (newRepo cacheDir m) = filepath.Clean cacheDir /\
  In (EvRemoveAll (filepath.Clean cacheDir)) (events (syncRepo fm (newRepo cacheDir m)) env h).
Proof.
  intros Hc Hn Hstat.
  assert (root (newRepo cacheDir m) = filepath.Clean cacheDir) as Hroot.
  { unfold newRepo, root, filepath.Join. cbn [filepath.dropEmpty].
    apply String.eqb_neq in Hc as Hc'. rewrite Hc'. cbn [GoStrings.Join].
    now apply Clean_dropped_last. }
  split; [exact Hroot|].
  destruct (syncRepo_absent_marker fm _ env h e Hstat) as [_ [rest ->]].
  cbv zeta. rewrite Hroot. cbn. auto.
Qed.

(** The theorem [nameless_record_roots_at_cache] at a concrete input. *)
Lemma nameless_record_roots_at_cache_witness :
  root (newRepo "/cache" mapNoName) = filepath.Clean "/cache" /\
  In (EvRemoveAll (filepath.Clean "/cache"))
     (events (syncRepo false (newRepo "/cache" mapNoName)) envEmptyCache []).
Proof.
  apply (nameless_record_roots_at_cache "/cache" mapNoName false envEmptyCache []
           "no such file or directory").
  - discriminate.
  - left. reflexivity.
  - reflexivity.
Defined.

(** X12: for a clean cache directory and a name that is a single path
    element, the local root is cacheDir/name, the marker file tested is
    cacheDir/name/FETCH_HEAD, the directory created for registrations is
    cacheDir/name/remotes, and the registration file of a remote that is a
    single path element is cacheDir/name/remotes/remote. *)
Theorem cache_layout cacheDir m :
  isCleanDir cacheDir = true ->
  isElem (Name m) = true ->
  root (newRepo cacheDir m) = (cacheDir ++ "/" ++ Name m)%string /\
  markerFile (newRepo cacheDir m) = (cacheDir ++ "/" ++ Name m ++ "/FETCH_HEAD")%string /\
  filepath.Join [root (newRepo cacheDir m); "remotes"] =
    (cacheDir ++ "/" ++ Name m ++ "/remotes")%string /\
  (forall remote,
      isElem remote = true ->
      filepath.Join [root (newRepo cacheDir m); "remotes"; remote] =
      (cacheDir ++ "/" ++ Name m ++ "/remotes/" ++ remote)%string).
Proof.
  intros Hc Hn.
  assert (root (newRepo cacheDir m) = (cacheDir ++ "/" ++ Name m)%string) as Hroot
    by (unfold newRepo, root; now apply Join_cleanDir).
  pose proof (isCleanDir_snoc cacheDir Hc (Name m) Hn) as Hclean.
  unfold markerFile. rewrite Hroot. repeat split.
  - rewrite (Join_cleanDir _ Hclean) by reflexivity. now rewrite !append_assoc.
  - rewrite (Join_cleanDir _ Hclean) by reflexivity. now rewrite !append_assoc.
  - intros remote Hr.
    rewrite (Join_cleanDir3 _ "remotes" remote Hclean) by (trivial; reflexivity).
    now rewrite !append_assoc.
Qed.

(** The theorem [cache_layout] at a concrete input. *)
Lemma cache_layout_witness :
  root (newRepo "/cache" mapA) = ("/cache" ++ "/" ++ Name mapA)%string /\
  markerFile (newRepo "/cache" mapA) = ("/cache" ++ "/" ++ Name mapA ++ "/FETCH_HEAD")%string /\
  filepath.Join [root (newRepo "/cache" mapA); "remotes"] =
    ("/cache" ++ "/" ++ Name mapA ++ "/remotes")%string /\
  (forall remote,
      isElem remote = true ->
      filepath.Join [root (newRepo "/cache" mapA); "remotes"; remote] =
      ("/cache" ++ "/" ++ Name mapA ++ "/remotes/" ++ remote)%string).
Proof.
  apply (cache_layout "/cache" mapA); reflexivity.
Defined.

(** ** More on the dispatcher *)

(** X13: when [initRepos] has returned, the loop body has finished for all
    but at most five of the descriptors. *)
Theorem unfinished_at_return fm env repos sched p :
  runPool fm env repos sched initPool = Some p ->
  pc p = MainReturned ->
  List.length repos <= List.length (finished p) + 5.
Proof.
  intros Hrun Hret.
  destruct (poolInv_runPool fm env repos sched initPool p (poolInv_init repos) Hrun)
    as [Hpc (sent & Hsent & Hperm)].
  unfold pending in Hsent. rewrite Hret in Hpc, Hsent. rewrite app_nil_r in Hsent.
  subst sent. apply Permutation_length in Hperm. rewrite length_app in Hperm.
  pose proof (length_running (workers p)). destruct Hpc as [Hlen _].
  unfold max in Hlen. lia.
Qed.

(** The theorem [unfinished_at_return] at a concrete input. *)
Lemma unfinished_at_return_witness :
  List.length [repoA] <= List.length (finished poolReturnedEarly) + 5.
Proof.
  apply (unfinished_at_return false envAllGood [repoA] schedReturnEarly poolReturnedEarly);
    reflexivity.
Defined.

Lemma runPool_worker0_drains fm env repos rs fin t :
  Forall (canMirror fm) rs ->
  runPool fm env repos (flat_map (fun _ => [Worker 0; Worker 0]) rs)
    {| pc := MainSending rs; closed := false;
       workers := repeat Receiving 5; finished := fin; trace := t; died := None |} =
  Some {| pc := MainSending []; closed := false;
          workers := repeat Receiving 5; finished := (rev rs ++ fin)%list;
          trace := (t ++ events (worker fm rs) env t)%list; died := None |}.
Proof.
  intros Hall. revert fin t. induction Hall as [|r rs Hr Hrs IH]; intros fin t.
  - cbn. now rewrite app_nil_r.
  - cbn [flat_map app rev].
    cbn [runPool step stepWorker alive workers pc closed finished trace died
           repeat nth_error setNth].
    rewrite (outcome_syncRepo_canMirror fm r env t Hr).
    rewrite IH, (events_worker_cons fm r rs env t Hr), <- !app_assoc. reflexivity.
Qed.

(** X14: for every list of descriptors none of which makes the mirroring
    stages panic, also one longer than the number of workers, there is a
    schedule that runs the process to the return of [main] with every worker
    out of its loop and the loop body finished once for each descriptor, in
    the order of the list; its events are those of one worker that receives
    the whole list. *)
Theorem complete_schedule_exists fm env repos :
  Forall (canMirror fm) repos ->
  runPool fm env repos (schedComplete repos) initPool =
  Some {| pc := MainExited; closed := true;
          workers := repeat Exited 5; finished := rev repos;
          trace := events (worker fm repos) env []; died := None |}.
Proof.
  intros Hall. unfold schedComplete. rewrite runPool_app.
  change (runPool fm env repos (repeat Main 6) initPool)
    with (Some {| pc := MainSending repos; closed := false;
                  workers := repeat Receiving 5; finished := [];
                  trace := []; died := None |}).
  cbv beta iota.
  rewrite runPool_app, (runPool_worker0_drains fm env repos repos [] [] Hall), app_nil_r.
  reflexivity.
Qed.

(** The theorem [complete_schedule_exists] at a concrete input: seven
    descriptors, with mirroring. *)
Lemma complete_schedule_exists_witness :
  runPool true envEmptyCache repos7 (schedComplete repos7) initPool =
  Some {| pc := MainExited; closed := true;
          workers := repeat Exited 5; finished := rev repos7;
          trace := events (worker true repos7) envEmptyCache []; died := None |}.
Proof.
  apply (complete_schedule_exists true envEmptyCache repos7).
  repeat (constructor; [right; eexists; reflexivity|]). constructor.
Defined.

(** X15: the descriptors are handed out in the order of the list: in every
    state the dispatcher can reach, those not yet received are a suffix of the
    list, and those before it are exactly the ones being executed or
    finished. *)
Theorem handed_out_in_order fm env repos sched p :
  runPool fm env repos sched initPool = Some p ->
  exists sent,
    repos = (sent ++ pending repos p)%list /\
    Permutation sent (running (workers p) ++ finished p) /\
    List.length (workers p) <= 5.
Proof.
  intros Hrun.
  destruct (poolInv_runPool fm env repos sched initPool p (poolInv_init repos) Hrun)
    as [Hpc (sent & Hsent & Hperm)].
  exists sent. repeat split; trivial.
  change 5 with max. destruct (pc p); destruct Hpc as [Hlen Hrest]; lia.
Qed.

(** The theorem [handed_out_in_order] at a concrete input. *)
Lemma handed_out_in_order_witness :
  exists sent,
    [repoA] = (sent ++ pending [repoA] poolReturnedEarly)%list /\
    Permutation sent (running (workers poolReturnedEarly) ++ finished poolReturnedEarly) /\
    List.length (workers poolReturnedEarly) <= 5.
Proof.
  apply (handed_out_in_order false envAllGood [repoA] schedReturnEarly poolReturnedEarly).
  reflexivity.
Defined.

(** ** Startup *)

Section StartupFacts.
Variable quote : string -> string.

(** X16: [createCacheDir] returns no error exactly when the flag is empty
    and a temporary directory could be made, or the flag names a path that did
    not exist and could be created, or one that is a directory; with an error
    it returns the empty string, and without one the flag as given (never
    cleaned or made absolute) or the temporary directory. *)
Theorem createCacheDir_result flagCacheDir host :
  let dir := fst (snd (createCacheDir quote flagCacheDir host)) in
  let err := snd (snd (createCacheDir quote flagCacheDir host)) in
  (err = None <->
   (flagCacheDir = "" /\ exists d, ioutil_TempDir host = inl d) \/
   (flagCacheDir <> "" /\
    ((exists e, os_StatDir host flagCacheDir = StatNotExist e /\
                os_MkdirAllDir host flagCacheDir = None) \/
     os_StatDir host flagCacheDir = StatInfo true))) /\
  (err <> None -> dir = "") /\
  (err = None -> flagCacheDir <> "" -> dir = flagCacheDir) /\
  (err = None -> flagCacheDir = "" -> ioutil_TempDir host = inl dir).
Proof.
  cbv zeta. unfold createCacheDir.
  destruct (String.eqb_spec flagCacheDir "") as [-> | Hflag].
  - destruct (ioutil_TempDir host) as [d|e]; cbn.
    + repeat split; try congruence. intros _. left. eauto.
    + repeat split; try congruence.
      intros [[_ [d' H]] | [H _]]; congruence.
  - destruct (os_StatDir host flagCacheDir) as [e|e|[|]] eqn:Hstat.
    + destruct (os_MkdirAllDir host flagCacheDir) as [e'|] eqn:Hmk; cbn.
      * repeat split; try congruence.
        intros [[H _] | [_ [(e0 & _ & H) | H]]]; congruence.
      * repeat split; try congruence. intros _. right. split; [assumption|]. left. eauto.
    + cbn. repeat split; try congruence.
      intros [[H _] | [_ [(e0 & H & _) | H]]]; congruence.
    + cbn. repeat split; try congruence. intros _. right. split; [assumption|]. now right.
    + cbn. repeat split; try congruence.
      intros [[H _] | [_ [(e0 & H & _) | H]]]; congruence.
Qed.

(** X17: [createCacheDir] calls [os.MkdirAll] only for the flag's path, with
    mode 0755, and only after [os.Stat] reported that the path does not
    exist; a path that exists and is not a directory gives the error "not a
    directory" and nothing is created. *)
Theorem createCacheDir_creates_only_missing flagCacheDir host :
  let calls := fst (createCacheDir quote flagCacheDir host) in
  (forall path perm,
      In (CallMkdirAll path perm) calls <->
      path = flagCacheDir /\ perm = 493%N /\ flagCacheDir <> "" /\
      exists e, os_StatDir host flagCacheDir = StatNotExist e) /\
  (flagCacheDir <> "" ->
   os_StatDir host flagCacheDir = StatInfo false ->
   createCacheDir quote flagCacheDir host =
   ([CallStat flagCacheDir],
    ("", Some ("problem with the -cachedir" ++ quote flagCacheDir ++ ": not a directory")))).
Proof.
  cbv zeta. unfold createCacheDir.
  destruct (String.eqb_spec flagCacheDir "") as [-> | Hflag].
  - split; [|congruence].
    intros path perm. destruct (ioutil_TempDir host); cbn; split.
    + intros [H | []]. discriminate.
    + intros (_ & _ & H & _). congruence.
    + intros [H | []]. discriminate.
    + intros (_ & _ & H & _). congruence.
  - destruct (os_StatDir host flagCacheDir) as [e|e|[|]] eqn:Hstat.
    + split; [|discriminate].
      intros path perm.
      assert (In (CallMkdirAll path perm)
                [CallStat flagCacheDir; CallMkdirAll flagCacheDir 493] <->
              path = flagCacheDir /\ perm = 493%N /\ flagCacheDir <> "" /\
              exists e0, StatNotExist e = StatNotExist e0) as Hin.
      { cbn. split.
        - intros [H | [H | []]]; [discriminate|]. injection H as <- <-. eauto 6.
        - intros (-> & -> & _). auto. }
      destruct (os_MkdirAllDir host flagCacheDir); exact Hin.
    + split; [|discriminate].
      intros path perm. cbn. split.
      * intros [H | []]. discriminate.
      * intros (_ & _ & _ & e0 & H). discriminate.
    + split; [|discriminate].
      intros path perm. cbn. split.
      * intros [H | []]. discriminate.
      * intros (_ & _ & _ & e0 & H). discriminate.
    + split; [|reflexivity].
      intros path perm. cbn. split.
      * intros [H | []]. discriminate.
      * intros (_ & _ & _ & e0 & H). discriminate.
Qed.

Ltac in_cases H :=
  repeat first [rewrite in_app_iff in H | progress cbn [In] in H];
  repeat match type of H with
         | _ \/ _ => destruct H as [H|H]
         | False => contradiction
         end.

(** The calls of [createCacheDir] are to [ioutil.TempDir], [os.Stat] and
    [os.MkdirAll] only. *)
Lemma createCacheDir_calls flagCacheDir host :
  Forall (fun c => match c with
                   | CallTempDir | CallStat _ | CallMkdirAll _ _ => True
                   | _ => False
                   end)
    (fst (createCacheDir quote flagCacheDir host)).
Proof.
  unfold createCacheDir.
  destruct (flagCacheDir =? "")%string.
  - destruct (ioutil_TempDir host); repeat constructor.
  - destruct (os_StatDir host flagCacheDir) as [e|e|[|]];
      [destruct (os_MkdirAllDir host flagCacheDir)| | |]; repeat constructor.
Qed.

(** X18: [main] reads the mappings file only after the cache directory was
    set up, and parses only what it read; when one of the three steps fails it
    ends with one fatal log line, its last call, and [initRepos] is not
    reached; otherwise it logs nothing fatal and calls [initRepos] on the
    descriptors built from the parsed records under the directory
    [createCacheDir] returned. *)
Theorem main_startup flagCacheDir repoMappingsFile host :
  let calls := fst (main quote flagCacheDir repoMappingsFile host) in
  let made := createCacheDir quote flagCacheDir host in
  (forall path, In (CallReadFile path) calls ->
                path = repoMappingsFile /\ snd (snd made) = None) /\
  (forall data, In (CallUnmarshal data) calls ->
                os_ReadFile host repoMappingsFile = inl data /\ snd (snd made) = None) /\
  match snd (main quote flagCacheDir repoMappingsFile host) with
  | Exit1 =>
      (exists pre line, calls = (pre ++ [CallFatal line])%list /\ filter isFatal pre = []) /\
      (snd (snd made) <> None \/
       (exists e, os_ReadFile host repoMappingsFile = inr e) \/
       (exists data e, os_ReadFile host repoMappingsFile = inl data /\
                       yaml_Unmarshal host data = inr e))
  | InitRepos m =>
      filter isFatal calls = [] /\
      snd (snd made) = None /\
      cacheDir m = fst (snd made) /\
      exists data records,
        os_ReadFile host repoMappingsFile = inl data /\
        yaml_Unmarshal host data = inl records /\
        repos m = buildRepos (cacheDir m) records
  end.
Proof.
  cbv zeta. unfold main.
  pose proof (createCacheDir_calls flagCacheDir host) as Hcalls.
  destruct (createCacheDir quote flagCacheDir host) as [calls [dir err]].
  cbn [fst snd] in *.
  assert (filter isFatal calls = []) as Hnofatal.
  { induction Hcalls as [|c cs Hc _ IH]; [reflexivity|].
    destruct c; try contradiction; exact IH. }
  assert (forall path, ~ In (CallReadFile path) calls) as Hnoread.
  { intros path Hin. rewrite Forall_forall in Hcalls. exact (Hcalls _ Hin). }
  assert (forall data, ~ In (CallUnmarshal data) calls) as Hnoparse.
  { intros data Hin. rewrite Forall_forall in Hcalls. exact (Hcalls _ Hin). }
  destruct err as [e|].
  - cbn [fst snd]. split; [|split; [|split]].
    + intros path H. exfalso. in_cases H; try discriminate. now apply (Hnoread path).
    + intros data H. exfalso. in_cases H; try discriminate. now apply (Hnoparse data).
    + exists ([CallPrint "starting git mirror"] ++ calls)%list. eexists. split.
      * now rewrite <- app_assoc.
      * now rewrite filter_app, Hnofatal.
    + left. discriminate.
  - destruct (os_ReadFile host repoMappingsFile) as [data|e] eqn:Hread.
    + destruct (yaml_Unmarshal host data) as [records|e] eqn:Hparse; cbn [fst snd].
      * split; [|split; [|split; [|split; [|split]]]].
        -- intros path H. in_cases H; try discriminate;
             try (now apply Hnoread in H). injection H as <-. now split.
        -- intros d H. in_cases H; try discriminate;
             try (now apply Hnoparse in H). injection H as <-. now split.
        -- now rewrite !filter_app, Hnofatal.
        -- reflexivity.
        -- reflexivity.
        -- exists data, records. now repeat split.
      * split; [|split; [|split]].
        -- intros path H. in_cases H; try discriminate;
             try (now apply Hnoread in H). injection H as <-. now split.
        -- intros d H. in_cases H; try discriminate;
             try (now apply Hnoparse in H). injection H as <-. now split.
        -- match goal with
           | |- exists pre line, (?l ++ [?a; CallFatal ?x])%list = _ /\ _ =>
               exists (l ++ [a])%list, x
           end.
           split.
           ++ apply (app_assoc _ [_] [_]).
           ++ now rewrite !filter_app, Hnofatal.
        -- right. right. eauto.
    + cbn [fst snd]. split; [|split; [|split]].
      * intros path H. in_cases H; try discriminate;
          try (now apply Hnoread in H). injection H as <-. now split.
      * intros d H. exfalso. in_cases H; try discriminate. now apply Hnoparse in H.
      * match goal with
        | |- exists pre line, (?l ++ [?a; CallFatal ?x])%list = _ /\ _ =>
            exists (l ++ [a])%list, x
        end.
        split.
        -- apply (app_assoc _ [_] [_]).
        -- now rewrite !filter_app, Hnofatal.
      * right. left. eauto.
Qed.

End StartupFacts.

(** X19: the loop of [main] that builds the descriptors keeps the number and
    the order of the records: the names, sources and destinations of the
    descriptors are those of the records, in order. *)
Theorem buildRepos_keeps_order cacheRoot mappings :
  List.length (buildRepos cacheRoot mappings) = List.length mappings /\
  map name (buildRepos cacheRoot mappings) = map Name mappings /\
  map source (buildRepos cacheRoot mappings) = map ADO mappings /\
  map destination (buildRepos cacheRoot mappings) = map BitBucket mappings.
Proof.
  rewrite buildRepos_map, length_map, !map_map. repeat split.
Qed.

(** ** What [addRemote] writes *)

(** X20: whatever [addRemote] writes is the registration of the
    destination: the URL line with the destination as given and the two push
    lines for heads and tags, with mode 0777, into the file named after the
    remote under the remotes directory, and only after that directory was
    created. *)
Theorem addRemote_writes_registration r env h path data perm :
  In (EvWriteFile path data perm) (events (addRemote r) env h) ->
  data = ("URL: " ++ destination r ++ LF ++
          "Push: +refs/heads/*:refs/heads/*" ++ LF ++
          "Push: +refs/tags/*:refs/tags/*" ++ LF)%string /\
  perm = 511%N /\
  env h (EvMkdirAll (filepath.Join [root r; "remotes"]) 511) = None /\
  exists remote,
    remoteResult (destination r) = Returned remote /\
    path = filepath.Join [root r; "remotes"; remote].
Proof.
  unfold events. rewrite run_addRemote. cbv zeta.
  destruct (env h _) as [e|] eqn:Hmk.
  - cbn. intros [H | []]. discriminate.
  - destruct (remoteResult (destination r)) as [remote|p] eqn:Hremote.
    + cbn. intros [H | [H | []]]; [discriminate|].
      injection H as <- <- <-. repeat split. now exists remote.
    + cbn. intros [H | []]. discriminate.
Qed.

(** The theorem [addRemote_writes_registration] at a concrete input. *)
Lemma addRemote_writes_registration_witness :
  ("URL: git@bb:org/a" ++ LF ++
   "Push: +refs/heads/*:refs/heads/*" ++ LF ++
   "Push: +refs/tags/*:refs/tags/*" ++ LF)%string =
  ("URL: " ++ destination repoA ++ LF ++
   "Push: +refs/heads/*:refs/heads/*" ++ LF ++
   "Push: +refs/tags/*:refs/tags/*" ++ LF)%string /\
  511%N = 511%N /\
  envAllGood [] (EvMkdirAll (filepath.Join [root repoA; "remotes"]) 511) = None /\
  exists remote,
    remoteResult (destination repoA) = Returned remote /\
    "/cache/a/remotes/bb" = filepath.Join [root repoA; "remotes"; remote].
Proof.
  apply (addRemote_writes_registration repoA envAllGood []).
  right. left. reflexivity.
Defined.

(** X21: when the remotes directory cannot be created, [addRemote] returns
    at once: it writes nothing, logs nothing, and does not even compute the
    remote name, so it does not panic on a destination without '@'. *)
Theorem addRemote_gives_up_silently r env h e :
  env h (EvMkdirAll (filepath.Join [root r; "remotes"]) 511) = Some e ->
  addRemote r env h =
  ([EvMkdirAll (filepath.Join [root r; "remotes"]) 511], Returned tt).
Proof.
  intros Hmk. rewrite run_addRemote. cbv zeta. now rewrite Hmk.
Qed.

(** The theorem [addRemote_gives_up_silently] at a concrete input. *)
Lemma addRemote_gives_up_silently_witness :
  addRemote repoPlain envNoMkdir [] =
  ([EvMkdirAll (filepath.Join [root repoPlain; "remotes"]) 511], Returned tt).
Proof.
  apply (addRemote_gives_up_silently repoPlain envNoMkdir [] "permission denied").
  reflexivity.
Defined.

(** ** What the mirroring stages did before the panic *)

(** X22: with mirroring enabled and a destination without '@', the mirroring
    stages have asked for the remotes directory before they panic; when it
    could be created the panic is [addRemote]'s and [push] is never entered;
    when it could not, [addRemote] returned and the panic is [push]'s, whose
    deferred cancel still runs on the context it had just made; nothing is
    logged on either way. *)
Theorem panic_after_remotes_directory r env h :
  ContainsByte (destination r) "@" = false ->
  let mk := EvMkdirAll (filepath.Join [root r; "remotes"]) 511 in
  let ctx := {| ctxSerial := S (List.length h); ctxTimeout := (30 * time_Second)%Z |} in
  events (mirrorStage true r) env h =
  match env h mk with
  | None => [mk]
  | Some _ => [mk; EvWithTimeout ctx; EvCancel ctx]
  end /\
  logLines (events (mirrorStage true r) env h) = [].
Proof.
  intros Hat mk ctx.
  assert (events (mirrorStage true r) env h =
          match env h mk with
          | None => [mk]
          | Some _ => [mk; EvWithTimeout ctx; EvCancel ctx]
          end) as Hev.
  { unfold mirrorStage. rewrite events_bind.
    unfold events, outcome. rewrite (addRemote_without_at _ _ _ Hat).
    cbn [fst snd]. fold mk.
    destruct (env h mk); [|reflexivity].
    rewrite (push_without_at _ _ _ Hat). cbn [fst].
    rewrite length_app. cbn [List.length]. rewrite Nat.add_1_r. reflexivity. }
  split; [exact Hev|].
  rewrite Hev. destruct (env h mk); reflexivity.
Qed.

(** The theorem [panic_after_remotes_directory] at a concrete input. *)
Lemma panic_after_remotes_directory_witness :
  events (mirrorStage true repoPlain) envNoMkdir [] =
  [EvMkdirAll (filepath.Join [root repoPlain; "remotes"]) 511;
   EvWithTimeout {| ctxSerial := 1; ctxTimeout := (30 * time_Second)%Z |};
   EvCancel {| ctxSerial := 1; ctxTimeout := (30 * time_Second)%Z |}] /\
  logLines (events (mirrorStage true repoPlain) envNoMkdir []) = [].
Proof.
  apply (panic_after_remotes_directory repoPlain envNoMkdir []). reflexivity.
Defined.

(** ** The startup on three hosts *)

Example main_on_fresh_host :
  main quotePlain "/srv/cache" "repos.yaml" hostFresh =
  ([CallPrint "starting git mirror";
    CallStat "/srv/cache"; CallMkdirAll "/srv/cache" 493;
    CallPrint "created cacheDir: /srv/cache";
    CallReadFile "repos.yaml"; CallPrint "read repoMappingsFile: repos.yaml";
    CallUnmarshal "repos: ..."; CallPrint "read repoMappingsFile: repos.yaml"],
   InitRepos {| repos := [newRepo "/srv/cache" mapA; newRepo "/srv/cache" mapASlash];
                cacheDir := "/srv/cache" |}).
Proof. reflexivity. Qed.

Example main_on_file_in_the_way :
  main quotePlain "/srv/cache" "repos.yaml" hostFileInTheWay =
  ([CallPrint "starting git mirror";
    CallStat "/srv/cache";
    CallFatal ("error create cache dir: problem with the -cachedir" ++
               quotePlain "/srv/cache" ++ ": not a directory")],
   Exit1).
Proof. reflexivity. Qed.

Example main_without_flag :
  main quotePlain "" "repos.yaml" hostFresh =
  ([CallPrint "starting git mirror";
    CallTempDir;
    CallPrint "created cacheDir: /tmp/gitmirror1";
    CallReadFile "repos.yaml"; CallPrint "read repoMappingsFile: repos.yaml";
    CallUnmarshal "repos: ..."; CallPrint "read repoMappingsFile: repos.yaml"],
   InitRepos {| repos := [newRepo "/tmp/gitmirror1" mapA; newRepo "/tmp/gitmirror1" mapASlash];
                cacheDir := "/tmp/gitmirror1" |}).
Proof. reflexivity. Qed.
